(** * qfxconvert: the extraction and normalisation pipeline of
      [src/qfxconvert/converter.py], embedded and verified.

    The development follows the Python source: [QFXConverter] with its
    methods [parse], [_extract_transactions], [_transaction_to_dict],
    [_extract_positions], [_position_to_dict], [to_csv], [to_json], and the
    module-level function [convert_qfx].

    Part I holds the definitions, Part II the lemmas and theorems on the
    converter, Part III further properties of the converter and of the
    command line ([src/qfxconvert/cli.py]).

    Modelling conventions.
    - A Python object is seen through [dir], [getattr] and [hasattr] only, so
      it is an association list of attribute names and values.
    - A [dict] with string keys is a [gmap string _]; the insertion order of a
      dict only shows in the byte layout of the JSON file, which the
      serialisers own.
    - The [Decimal] values of a document are the finite ones (sign,
      coefficient, exponent), the fixed-point amounts an OFX document
      carries; [float(Decimal)] is the correctly rounded (nearest, ties to
      even) binary64 conversion of CPython. The infinities and the NaNs of
      [Decimal] are attribute values of [anyval]: the flattening on them
      ([normalize_any], [_transaction_to_dict_any]) returns a record or
      raises, as [float] does on a signaling NaN.
    - A [datetime] carries its wall-clock fields and the UTC offset of its
      [tzinfo] (in microseconds), which is all [isoformat] reads.
    - The file system, the OFX parser and the two serialisers are the
      external collaborators; what they do is recorded in a [world]. An
      [open] for writing can fail ([write_failure]): the method raises what
      [open] raises and the file is not touched. *)

From Stdlib Require Import ZArith QArith Qabs Qpower Lia Lqa Ascii String.
From Stdlib.Floats Require Import SpecFloat.
From stdpp Require Import base tactics option list gmap strings sorting pretty.

(** * Part I: definitions *)

(** ** datetime.isoformat *)

Module Datetime.
Local Open Scope Z_scope.

Record datetime := mk_datetime {
  year : Z; month : Z; day : Z;
  hour : Z; minute : Z; second : Z; microsecond : Z;
  (** [tzinfo.utcoffset(self)] in microseconds; [None] for a naive value *)
  utcoffset : option Z
}.

(** The ranges the [datetime] constructor enforces (the day is further
    bounded by the month's length, which nothing below needs). *)
Definition valid (d : datetime) : Prop :=
  1 <= year d <= 9999 ∧ 1 <= month d <= 12 ∧ 1 <= day d <= 31 ∧
  0 <= hour d < 24 ∧ 0 <= minute d < 60 ∧ 0 <= second d < 60 ∧
  0 <= microsecond d < 1000000 ∧
  match utcoffset d with
  | Some off => - 86400000000 < off < 86400000000
  | None => True
  end.

Definition digit_char (n : Z) : ascii :=
  ascii_of_nat (Z.to_nat (48 + n mod 10)).

(** ["%0wd" % n] for [0 <= n < 10^w]: exactly [w] decimal digits. *)
Fixpoint pad (w : nat) (n : Z) : string :=
  match w with
  | O => ""
  | S w' => String (digit_char (n / 10 ^ Z.of_nat w')) (pad w' n)
  end.

(** The microseconds, written only when they are not zero. *)
Definition fraction (us : Z) : string :=
  if us =? 0 then "" else "." +:+ pad 6 us.

(** [_format_time] with [timespec='auto']. *)
Definition format_time (hh mm ss us : Z) : string :=
  pad 2 hh +:+ ":" +:+ pad 2 mm +:+ ":" +:+ pad 2 ss +:+ fraction us.

(** [_format_offset]: sign, hours and minutes, then seconds and
    microseconds only when they are not zero. *)
Definition format_offset (off : option Z) : string :=
  match off with
  | None => ""
  | Some off =>
      let sign := if off <? 0 then "-" else "+" in
      let off := Z.abs off in
      let hh := off / 3600000000 in
      let mm := (off mod 3600000000) / 60000000 in
      let ss := (off mod 60000000) / 1000000 in
      let us := off mod 1000000 in
      sign +:+ pad 2 hh +:+ ":" +:+ pad 2 mm +:+
      (if (ss =? 0) && (us =? 0) then ""
       else ":" +:+ pad 2 ss +:+ fraction us)
  end.

Definition isoformat (d : datetime) : string :=
  pad 4 (year d) +:+ "-" +:+ pad 2 (month d) +:+ "-" +:+ pad 2 (day d)
  +:+ "T" +:+
  format_time (hour d) (minute d) (second d) (microsecond d) +:+
  format_offset (utcoffset d).

(** *** Reading an ISO-8601 string back

    The reader of the layout [isoformat] emits
    ([YYYY-MM-DDTHH:MM:SS[.ffffff][+HH:MM[:SS[.ffffff]]]]), as
    [datetime.fromisoformat] reads it. *)

Definition digit_val (c : ascii) : option Z :=
  let k := Z.of_nat (nat_of_ascii c) in
  if (48 <=? k) && (k <=? 57) then Some (k - 48) else None.

Fixpoint take_digits (w : nat) (acc : Z) (s : string) : option (Z * string) :=
  match w with
  | O => Some (acc, s)
  | S w' =>
      match s with
      | String c s' => d ← digit_val c; take_digits w' (10 * acc + d) s'
      | EmptyString => None
      end
  end.

Definition expect (c : ascii) (s : string) : option string :=
  match s with
  | String c' s' => if decide (c = c') then Some s' else None
  | EmptyString => None
  end.

(** An optional [.ffffff]. *)
Definition take_fraction (s : string) : option (Z * string) :=
  match s with
  | String "."%char s' => take_digits 6 0 s'
  | _ => Some (0, s)
  end.

(** An optional [:SS[.ffffff]]. *)
Definition take_offset_seconds (s : string) : option (Z * Z * string) :=
  match s with
  | String ":"%char s' =>
      '(ss, s1) ← take_digits 2 0 s';
      '(us, s2) ← take_fraction s1;
      Some (ss, us, s2)
  | _ => Some (0, 0, s)
  end.

Definition take_offset (s : string) : option (option Z) :=
  match s with
  | EmptyString => Some None
  | String c s' =>
      sign ← (if decide (c = "+"%char) then Some 1
              else if decide (c = "-"%char) then Some (-1) else None);
      '(hh, s1) ← take_digits 2 0 s';
      s2 ← expect ":" s1;
      '(mm, s3) ← take_digits 2 0 s2;
      '(ss, us, s4) ← take_offset_seconds s3;
      match s4 with
      | EmptyString =>
          Some (Some (sign * (((hh * 60 + mm) * 60 + ss) * 1000000 + us)))
      | _ => None
      end
  end.

Definition fromisoformat (s : string) : option datetime :=
  '(y, s) ← take_digits 4 0 s;
  s ← expect "-" s;
  '(mo, s) ← take_digits 2 0 s;
  s ← expect "-" s;
  '(d, s) ← take_digits 2 0 s;
  s ← expect "T" s;
  '(hh, s) ← take_digits 2 0 s;
  s ← expect ":" s;
  '(mi, s) ← take_digits 2 0 s;
  s ← expect ":" s;
  '(ss, s) ← take_digits 2 0 s;
  '(us, s) ← take_fraction s;
  off ← take_offset s;
  Some (mk_datetime y mo d hh mi ss us off).
End Datetime.
Export Datetime.

(** ** Decimal and float *)

Module Float.
Local Open Scope Z_scope.

(** A finite [decimal.Decimal]: [(-1)^sign * coefficient * 10^exponent]. *)
Record decimal := mk_decimal {
  dec_sign : bool; dec_coef : N; dec_exp : Z
}.

(** The nearest integer to [a / b] for [0 < b], ties to the even one. *)
Definition round_half_even (a b : Z) : Z :=
  let q := a / b in
  let r := a mod b in
  match 2 * r ?= b with
  | Lt => q
  | Gt => q + 1
  | Eq => if Z.even q then q else q + 1
  end.

(** The fraction [(a / b) * 2^k] as a pair of integers. *)
Definition scale2 (a b k : Z) : Z * Z :=
  if 0 <=? k then (a * 2 ^ k, b) else (a, b * 2 ^ (- k)).

(** [floor (log2 (n / d))] for [0 < n], [0 < d]. *)
Definition floor_log2_ratio (n d : Z) : Z :=
  let e0 := Z.log2 n - Z.log2 d in
  let '(a, b) := scale2 n d (- e0) in
  if b <=? a then e0 else e0 - 1.

(** The binary64 number nearest to [(-1)^s * n / d] for [0 < n], [0 < d]:
    53 significant bits, exponents of the last place from [-1074] to [971],
    ties to even, underflow to zero, overflow to infinity. This is what
    CPython's string-to-double conversion returns. *)
Definition round_ratio (s : bool) (n d : Z) : spec_float :=
  let e := floor_log2_ratio n d in
  let u := Z.max (e - 52) (-1074) in
  let '(a, b) := scale2 n d (- u) in
  let m := round_half_even a b in
  if m =? 0 then S754_zero s
  else
    let '(m', u') := if m =? 2 ^ 53 then (2 ^ 52, u + 1) else (m, u) in
    if 971 <? u' then S754_infinity s
    else S754_finite s (Z.to_pos m') u'.

(** [float(d)] for a finite [Decimal] [d] ([Decimal.__float__] goes through
    the decimal string, hence is correctly rounded). *)
Definition float_of_decimal (d : decimal) : spec_float :=
  let c := Z.of_N (dec_coef d) in
  if c =? 0 then S754_zero (dec_sign d)
  else if 0 <=? dec_exp d
       then round_ratio (dec_sign d) (c * 10 ^ dec_exp d) 1
       else round_ratio (dec_sign d) c (10 ^ (- dec_exp d)).

(** [round(x, ndigits)] of a float for [0 <= ndigits]: the exact value of
    [x] is rounded to [ndigits] decimal places, ties to even, and the
    decimal result converted back to binary64. *)
Definition py_round (x : spec_float) (ndigits : Z) : spec_float :=
  match x with
  | S754_finite s m e =>
      let '(a, b) := scale2 (Z.pos m * 10 ^ ndigits) 1 e in
      let k := round_half_even a b in
      if k =? 0 then S754_zero s else round_ratio s k (10 ^ ndigits)
  | _ => x
  end.

(** Exact values, as rationals. *)
Definition Q_of_decimal (d : decimal) : Q :=
  let c := inject_Z (Z.of_N (dec_coef d)) in
  let a := (c * Qpower (inject_Z 10) (dec_exp d))%Q in
  if dec_sign d then Qopp a else a.

Definition Q_of_float (x : spec_float) : option Q :=
  match x with
  | S754_zero _ => Some (inject_Z 0)
  | S754_finite s m e =>
      let a := (inject_Z (Z.pos m) * Qpower (inject_Z 2) e)%Q in
      Some (if s then Qopp a else a)
  | _ => None
  end.

(** [abs(x - d) < eps] for a float [x] and a decimal [d]; infinities and
    NaN are at no finite distance. *)
Definition within (eps : Q) (x : spec_float) (d : decimal) : Prop :=
  match Q_of_float x with
  | Some q => (Qabs (q - Q_of_decimal d) < eps)%Q
  | None => False
  end.
End Float.
Export Float.

(** ** Python values and objects *)

(** The values an attribute can hold, by the tests the converter applies to
    them ([is None], [callable], [isinstance], [hasattr]). *)
#[warnings="-register-all"]
Inductive pyval :=
| VNone
| VBool (b : bool)
| VInt (z : Z)
| VFloat (f : spec_float)
| VStr (s : string)
| VDatetime (d : datetime)
| VDecimal (d : decimal)
(** a method, function or other callable *)
| VCallable
(** an instance with a [__dict__], seen through its attributes *)
| VObject (attrs : list (string * pyval))
(** any other value (a date, a time, bytes, ...): no [__dict__], none of
    the types above, nothing [json] encodes *)
| VOpaque.

(** An object as [getattr] and [dir] see it. *)
Definition pyobj := list (string * pyval).

Fixpoint getattr {A} (o : list (string * A)) (name : string) : option A :=
  match o with
  | [] => None
  | (n, v) :: o' => if decide (n = name) then Some v else getattr o' name
  end.

(** [getattr(o, name, dflt)] *)
Definition getattr_default (o : pyobj) (name : string) (dflt : pyval) : pyval :=
  default dflt (getattr o name).

(** [dir(o)]: the attribute names, each once, in sorted order. *)
Definition dir {A} (o : list (string * A)) : list string :=
  merge_sort String.le (remove_dups (o.*1)).

Definition callable (v : pyval) : bool :=
  match v with VCallable => true | _ => false end.

(** [name.startswith('_')] *)
Definition startswith_underscore (name : string) : bool :=
  match name with
  | String c _ => bool_decide (c = "_"%char)
  | EmptyString => false
  end.

(** A flat record ([trx_dict], [pos_dict], [account_info]). *)
Abbreviation record := (gmap string pyval).

(** [d.update(other)]: the entries of [other] win. *)
Definition dict_update (d other : record) : record := other ∪ d.

(** ** The converter: flattening (converter.py, lines 73-98 and 123-148) *)

(** The type dispatch of the loop body (lines 83-96), as the assignments
    [trx_dict[key] = value] it performs, in order. On the values of [pyval]
    no branch raises; [normalize_any] below is the dispatch on the special
    [Decimal]s as well, where line 89 can. *)
Definition normalize (attr_name : string) (attr_value : pyval)
  : list (string * pyval) :=
  match attr_value with
  | VNone => []
  | VDatetime d => [(attr_name, VStr (isoformat d))]
  | VDecimal d => [(attr_name, VFloat (float_of_decimal d))]
  | VStr _ | VInt _ | VFloat _ | VBool _ => [(attr_name, attr_value)]
  | VObject attrs =>
      match getattr attrs "uniqueid" with
      | Some u => [(attr_name +:+ "_uniqueid", u)]
      | None => []
      end ++
      match getattr attrs "uniqueidtype" with
      | Some t => [(attr_name +:+ "_uniqueidtype", t)]
      | None => []
      end
  | VCallable | VOpaque => []
  end.

Definition assign (d : record) (kv : string * pyval) : record :=
  <[kv.1 := kv.2]> d.

(** One iteration of [for attr_name in dir(trx)]. Every name of [dir] is an
    attribute, so the [None] branch is never taken. *)
Definition attr_step (o : pyobj) (d : record) (attr_name : string) : record :=
  match getattr o attr_name with
  | None => d
  | Some attr_value =>
      if startswith_underscore attr_name || callable attr_value then d
      else foldl assign d (normalize attr_name attr_value)
  end.

Definition _transaction_to_dict (trx : pyobj) (account_info : record) : record :=
  let trx_dict := dict_update ∅ account_info in
  foldl (attr_step trx) trx_dict (dir trx).

Definition _position_to_dict (pos : pyobj) (account_info : record) : record :=
  let pos_dict := dict_update ∅ account_info in
  foldl (attr_step pos) pos_dict (dir pos).

(** ** The converter: aggregation (lines 50-71 and 100-121) *)

Record statement := mk_statement {
  account : pyobj;
  (** [statement.transactions]: [None] or a list *)
  transactions : option (list pyobj);
  (** [statement.positions]: the attribute may be missing (outer [None]),
      or be [None] (inner [None]), or a list *)
  positions : option (option (list pyobj))
}.

(** [ofx_data.statements] *)
Definition document := list statement.

Definition transaction_account_info (account : pyobj) : record :=
  <["bank_id" := getattr_default account "bankid"
                   (getattr_default account "brokerid" (VStr ""))]>
  (<["account_type" := getattr_default account "accttype" (VStr "")]>
  (<["account_id" := getattr_default account "acctid" (VStr "")]> ∅)).

Definition position_account_info (account : pyobj) : record :=
  <["broker_id" := getattr_default account "brokerid" (VStr "")]>
  (<["account_id" := getattr_default account "acctid" (VStr "")]> ∅).

(** The body of [for statement in statements] of [_extract_transactions];
    [if stmt_transactions:] skips [None] and the empty list. *)
Definition transactions_step (acc : list record) (st : statement)
  : list record :=
  let account_info := transaction_account_info (account st) in
  match st.(transactions) with
  | Some (trx0 :: rest) =>
      foldl (λ acc trx, acc ++ [_transaction_to_dict trx account_info])
            acc (trx0 :: rest)
  | _ => acc
  end.

Definition extract_transactions (doc : document) : list record :=
  foldl transactions_step [] doc.

(** The body of [for statement in statements] of [_extract_positions]. *)
Definition positions_step (acc : list record) (st : statement) : list record :=
  match st.(positions) with
  | None | Some None => acc
  | Some (Some stmt_positions) =>
      let account_info := position_account_info (account st) in
      foldl (λ acc pos, acc ++ [_position_to_dict pos account_info])
            acc stmt_positions
  end.

Definition extract_positions (doc : document) : list record :=
  foldl positions_step [] doc.


(** ** The outside world: files, collaborators, exceptions *)

(** What a file holds. The serialisers own the byte layout, so an output
    file is the data handed to them. *)
Inductive file :=
| FBytes (content : string)
(** written by [csv.DictWriter]: the header row and the rows of cells *)
| FCsv (header : list string) (rows : list (list string))
(** written by [json.dump]: the dumped object and the [indent] argument *)
| FJson (data : gmap string (list record)) (indent : option Z)
(** opened for writing, then the writer raised *)
| FTruncated.

Inductive event :=
| EvParse (path : string)
| EvOpenWrite (path : string).

Record world := mk_world {
  fs : gmap string file;
  log : list event
}.

Inductive exn :=
| FileNotFoundError (msg : string)
| ValueError (msg : string)
| TypeError (msg : string)
| AttributeError (msg : string)
(** [IsADirectoryError], [PermissionError], [NotADirectoryError] and the
    other subclasses of [OSError] but [FileNotFoundError] *)
| OSError (msg : string).

(** How [open(path, 'w')] fails, with the text of the exception. *)
Inductive open_failure :=
(** a directory of the path is missing: [FileNotFoundError] *)
| NoSuchDirectory (msg : string)
(** the path holds a null byte: [ValueError] *)
| NullByte
(** the path is a directory, is not writable, ...: another [OSError] *)
| Refused (msg : string).

Definition failure_exn (f : open_failure) : exn :=
  match f with
  | NoSuchDirectory msg => FileNotFoundError msg
  | NullByte => ValueError "embedded null byte"
  | Refused msg => OSError msg
  end.

(** The collaborators the converter calls and does not define. *)
Class Collaborators := {
  (** decoding, transliteration, [OFXTree.parse] and [OFXTree.convert] on the
      bytes of a file: the document, or the text of the exception raised *)
  ofx_parse : file → string + document;
  (** the text of the [OSError] of an [open] for reading that fails *)
  open_error : string → string;
  (** [open(path, 'w')]: whether it fails, and how. The converter creates no
      directory and changes no permission, so the answer for a path is the
      same all along a run. *)
  write_failure : string → option open_failure;
  (** [Path.with_suffix] *)
  with_suffix : string → string → string;
  (** the builtin [str] on values that are neither [None] nor a [str] *)
  py_str : pyval → string;
  (** [with_suffix] replaces the last suffix of the name, which has a single
      dot: the positions file is never the transactions file *)
  with_suffix_positions path : with_suffix path ".positions.csv" ≠ path
}.

(** ** The converter object and its methods *)

Record converter := mk_converter {
  input_file : string;
  ofx_data : option document;
  _parsed : bool
}.

(** A method runs on the converter object and the world, and returns a
    value or raises; what it changed before raising stays changed. *)
Definition M (A : Type) : Type :=
  converter * world → (exn + A) * (converter * world).

Definition ret {A} (a : A) : M A := λ st, (inr a, st).
Definition raise {A} (e : exn) : M A := λ st, (inl e, st).
Definition bind {A B} (m : M A) (k : A → M B) : M B := λ st,
  match m st with
  | (inl e, st') => (inl e, st')
  | (inr a, st') => k a st'
  end.

Notation "'let*' x := m 'in' k" := (bind m (λ x, k))
  (at level 10, x pattern, m at level 100, k at level 200).

Definition get_self : M converter := λ st, (inr st.1, st).
Definition set_self (c : converter) : M unit := λ st, (inr (), (c, st.2)).
Definition get_world : M world := λ st, (inr st.2, st).
Definition emit (e : event) : M unit := λ st,
  (inr (), (st.1, mk_world (fs st.2) (log st.2 ++ [e]))).
Definition store (path : string) (f : file) : M unit := λ st,
  (inr (), (st.1, mk_world (<[path := f]> (fs st.2)) (log st.2))).

(** [Path.exists] *)
Definition exists_ (w : world) (path : string) : bool :=
  bool_decide (is_Some (fs w !! path)).

(** [open(path, 'w')]: the call raises, or the file is created or
    truncated. *)
Definition open_write {collab : Collaborators} (path : string) : M unit :=
  match write_failure path with
  | Some f => raise (failure_exn f)
  | None => let* _ := emit (EvOpenWrite path) in store path FTruncated
  end.

(** ASCII lower-casing. [str.lower] also maps letters outside ASCII, but
    none of them to a letter of ["csv"] or ["json"], so the two comparisons
    of [convert_qfx] come out the same. *)
Definition lower_char (c : ascii) : ascii :=
  let n := nat_of_ascii c in
  if (65 <=? n)%nat && (n <=? 90)%nat then ascii_of_nat (n + 32) else c.

Fixpoint lower (s : string) : string :=
  match s with
  | EmptyString => EmptyString
  | String c s' => String (lower_char c) (lower s')
  end.

(** [json.dump] raises [TypeError] on a value it cannot encode. *)
Definition json_encodable (v : pyval) : bool :=
  match v with
  | VNone | VBool _ | VInt _ | VFloat _ | VStr _ => true
  | _ => false
  end.

Definition record_encodable (r : record) : bool :=
  bool_decide (map_Forall (λ _ v, json_encodable v = true) r).

Definition data_encodable (data : gmap string (list record)) : bool :=
  bool_decide (map_Forall (λ _ rows, forallb record_encodable rows = true)
                 data).

(** [indent if indent > 0 else None] *)
Definition json_indent (indent : Z) : option Z :=
  if (0 <? indent)%Z then Some indent else None.

Module QFXConverter.
Section methods.
Context {collab : Collaborators}.

(** lines 16-22 *)
Definition __init__ (input_file : string) (w : world)
  : (exn + converter) * world :=
  if exists_ w input_file
  then (inr (mk_converter input_file None false), w)
  else (inl (FileNotFoundError ("Input file not found: " +:+ input_file)), w).

(** lines 24-48 *)
Definition parse : M unit :=
  let* self := get_self in
  let* w := get_world in
  match fs w !! input_file self with
  | None =>
      raise (ValueError ("Failed to parse OFX file: " +:+
                         open_error (input_file self)))
  | Some f =>
      let* _ := emit (EvParse (input_file self)) in
      match ofx_parse f with
      | inl e => raise (ValueError ("Failed to parse OFX file: " +:+ e))
      | inr doc => set_self (mk_converter (input_file self) (Some doc) true)
      end
  end.

(** [self.ofx_data.statements], after [if not self._parsed: self.parse()] *)
Definition statements : M document :=
  let* self := get_self in
  let* _ := (if _parsed self then ret () else parse) in
  let* self := get_self in
  match ofx_data self with
  | Some doc => ret doc
  | None =>
      raise (AttributeError "'NoneType' object has no attribute 'statements'")
  end.

(** lines 50-71 *)
Definition _extract_transactions : M (list record) :=
  let* statements := statements in
  ret (extract_transactions statements).

(** lines 100-121 *)
Definition _extract_positions : M (list record) :=
  let* statements := statements in
  ret (extract_positions statements).

(** [sorted] over the union of the keys (lines 162-165, 175-178) *)
Definition fieldnames (rows : list record) : list string :=
  merge_sort String.le
    (elements (foldl (λ (fieldnames : gset string) (trx : record),
                        fieldnames ∪ dom trx) ∅ rows)).

(** A cell as the [csv] writer renders it: [None] and a missing key (the
    [restval]) give the empty cell, a [str] is written as it is, anything
    else through [str]. *)
Definition csv_field (v : option pyval) : string :=
  match v with
  | None | Some VNone => ""
  | Some (VStr s) => s
  | Some v => py_str v
  end.

Definition csv_row (fieldnames : list string) (row : record) : list string :=
  (λ key, csv_field (row !! key)) <$> fieldnames.

(** [open], [DictWriter(..., extrasaction='ignore')], [writeheader],
    [writerows] *)
Definition write_csv (path : string) (rows : list record) : M unit :=
  let* _ := open_write path in
  let fieldnames := fieldnames rows in
  store path (FCsv fieldnames (csv_row fieldnames <$> rows)).

Definition or_default (output_file : option string) (suffix : string)
  : M string :=
  let* self := get_self in
  ret (match output_file with
       | None => with_suffix (input_file self) suffix
       | Some p => p
       end).

(** lines 150-184 *)
Definition to_csv (output_file : option string) : M string :=
  let* output_file := or_default output_file ".csv" in
  let* transactions := _extract_transactions in
  match transactions with
  | [] => raise (ValueError "No transactions found in OFX file")
  | _ :: _ =>
      let* _ := write_csv output_file transactions in
      let* positions := _extract_positions in
      let* _ := match positions with
                | [] => ret ()
                | _ :: _ =>
                    write_csv (with_suffix output_file ".positions.csv")
                              positions
                end in
      ret output_file
  end.

(** [open] and [json.dump(data, jsonfile, indent=...)] *)
Definition write_json (path : string) (data : gmap string (list record))
    (indent : option Z) : M unit :=
  let* _ := open_write path in
  if data_encodable data
  then store path (FJson data indent)
  else raise (TypeError "Object is not JSON serializable").

(** lines 186-206 *)
Definition to_json (output_file : option string) (indent : Z) : M string :=
  let* output_file := or_default output_file ".json" in
  let* transactions := _extract_transactions in
  match transactions with
  | [] => raise (ValueError "No transactions found in OFX file")
  | _ :: _ =>
      let data : gmap string (list record) :=
        {[ "transactions" := transactions ]} in
      let* positions := _extract_positions in
      let data := match positions with
                  | [] => data
                  | _ :: _ => <["positions" := positions]> data
                  end in
      let* _ := write_json output_file data (json_indent indent) in
      ret output_file
  end.
End methods.
End QFXConverter.

(** lines 209-221 *)
Definition convert_qfx {collab : Collaborators} (input_file output_format : string)
    (output_file : option string) (w : world) : (exn + string) * world :=
  match QFXConverter.__init__ input_file w with
  | (inl e, w') => (inl e, w')
  | (inr converter, w') =>
      let m :=
        if decide (lower output_format = "csv")
        then QFXConverter.to_csv output_file
        else if decide (lower output_format = "json")
        then QFXConverter.to_json output_file 2
        else raise (ValueError ("Unsupported output format: " +:+ output_format
                                +:+ ". Use 'csv' or 'json'.")) in
      let '(r, (_, w'')) := m (converter, w') in
      (r, w'')
  end.

(** ** The converter: flattening, on every [Decimal] (lines 73-98, 123-148)

    The records above hold finite decimals. A [Decimal] can also be an
    infinity or a NaN: the [float] of lines 89 and 139 gives the float of
    the same name for an infinity and for a quiet NaN, and raises
    [ValueError] for a signaling NaN. The definitions below are the loop of
    lines 77-96 on an object whose attributes may hold these values: it
    returns the flat record or raises. *)

(** A [Decimal] that is not a finite number, with its sign. *)
Inductive special :=
| Infinity (negative : bool)
| NaN (negative : bool)
| sNaN (negative : bool).

(** An attribute value: one of the values of [pyval], or a special
    [Decimal]. (Inside a composite, where the loop does not dispatch on it,
    a special [Decimal] is one of the values [VOpaque].) *)
Inductive anyval :=
| Val (v : pyval)
| Special (d : special).

Definition anyobj := list (string * anyval).

(** The exception of [Decimal.__float__] on a signaling NaN (the text is
    that of CPython's [_decimal]). *)
Definition signaling_nan : exn :=
  ValueError "cannot convert signaling NaN to float".

(** [float(d)] for a special [Decimal]. *)
Definition float_of_special (d : special) : exn + spec_float :=
  match d with
  | Infinity negative => inr (S754_infinity negative)
  | NaN _ => inr S754_nan
  | sNaN _ => inl signaling_nan
  end.

(** [callable(getattr(trx, attr_name))] (line 78) *)
Definition callable_any (attr_value : anyval) : bool :=
  match attr_value with
  | Val v => callable v
  | Special _ => false
  end.

(** The type dispatch of the loop body (lines 83-96): the assignments it
    performs, or the exception it raises. A special [Decimal] takes the
    branch of line 88; on the values of [pyval] no branch raises. *)
Definition normalize_any (attr_name : string) (attr_value : anyval)
  : exn + list (string * pyval) :=
  match attr_value with
  | Special d =>
      match float_of_special d with
      | inl e => inl e
      | inr f => inr [(attr_name, VFloat f)]
      end
  | Val v => inr (normalize attr_name v)
  end.

(** One iteration of [for attr_name in dir(trx)]. *)
Definition attr_step_any (o : anyobj) (d : record) (attr_name : string)
  : exn + record :=
  match getattr o attr_name with
  | None => inr d
  | Some attr_value =>
      if startswith_underscore attr_name || callable_any attr_value
      then inr d
      else match normalize_any attr_name attr_value with
           | inl e => inl e
           | inr assignments => inr (foldl assign d assignments)
           end
  end.

(** The loop: an exception leaves it, and the method. *)
Fixpoint attr_loop_any (o : anyobj) (d : record) (names : list string)
  : exn + record :=
  match names with
  | [] => inr d
  | attr_name :: names' =>
      match attr_step_any o d attr_name with
      | inl e => inl e
      | inr d' => attr_loop_any o d' names'
      end
  end.

Definition _transaction_to_dict_any (trx : anyobj) (account_info : record)
  : exn + record :=
  let trx_dict := dict_update ∅ account_info in
  attr_loop_any trx trx_dict (dir trx).

Definition _position_to_dict_any (pos : anyobj) (account_info : record)
  : exn + record :=
  let pos_dict := dict_update ∅ account_info in
  attr_loop_any pos pos_dict (dir pos).

(** An object of finite decimals, among the objects above. *)
Definition plain (o : pyobj) : anyobj := (λ kv, (kv.1, Val kv.2)) <$> o.

(** ** Vocabulary of the statements *)

(** The field names of the two account contexts. *)
Definition account_fields : list string :=
  ["account_id"; "account_type"; "bank_id"; "broker_id"].

(** What the loop body stores under the attribute's own name, if anything. *)
Definition own_field (v : pyval) : option pyval :=
  match v with
  | VDatetime d => Some (VStr (isoformat d))
  | VDecimal d => Some (VFloat (float_of_decimal d))
  | VStr _ | VInt _ | VFloat _ | VBool _ => Some v
  | _ => None
  end.

(** The attribute is skipped by line 78. *)
Definition skipped (name : string) (v : pyval) : bool :=
  startswith_underscore name || callable v.

(** What may follow the microseconds in an ISO-8601 string: the end of the
    string or the sign of the offset. *)
Definition after_fraction (rest : string) : Prop :=
  match rest with
  | EmptyString => True
  | String c _ => c = "+"%char ∨ c = "-"%char
  end.

(** The transactions of a statement, as the loop of line 67 visits them. *)
Definition statement_transactions (st : statement) : list pyobj :=
  default [] (transactions st).

Definition transaction_count (doc : document) : nat :=
  sum_list ((λ st, length (statement_transactions st)) <$> doc).

(** The records of one statement, in the order of its transactions. *)
Definition statement_records (st : statement) : list record :=
  (λ trx, _transaction_to_dict trx (transaction_account_info (account st)))
    <$> statement_transactions st.

(** The converter object holds the parsed document [doc], or will hold it
    once [parse] has run on the world [w]. *)
Definition loads {collab : Collaborators} (c : converter) (w : world)
    (doc : document) : Prop :=
  (_parsed c = true ∧ ofx_data c = Some doc) ∨
  (_parsed c = false ∧
   ∃ f, fs w !! input_file c = Some f ∧ ofx_parse f = inr doc).

(** The converter object and the world once the document is loaded. *)
Definition loaded (c : converter) (w : world) (doc : document)
  : converter * world :=
  if _parsed c then (c, w)
  else (mk_converter (input_file c) (Some doc) true,
        mk_world (fs w) (log w ++ [EvParse (input_file c)])).

(** The converter object [__init__] returns. *)
Definition fresh (path : string) : converter := mk_converter path None false.

(** The world after [path] was opened for writing and [f] written to it. *)
Definition written (w : world) (path : string) (f : file) : world :=
  mk_world (<[path := f]> (fs w)) (log w ++ [EvOpenWrite path]).

(** The message of the error raised at lines 159 and 195. *)
Definition no_transactions : exn :=
  ValueError "No transactions found in OFX file".

(** The error raised at line 221. *)
Definition unsupported_format (output_format : string) : exn :=
  ValueError ("Unsupported output format: " +:+ output_format
              +:+ ". Use 'csv' or 'json'.").

(** An output file was opened according to the log. *)
Definition opened_for_writing (w : world) : Prop :=
  ∃ path, EvOpenWrite path ∈ log w.

(** The parser was invoked according to the log. *)
Definition parser_invoked (w : world) : Prop :=
  ∃ path, EvParse path ∈ log w.

(** The path the output goes to. *)
Definition target {collab : Collaborators} (c : converter)
    (output_file : option string) (suffix : string) : string :=
  match output_file with
  | None => with_suffix (input_file c) suffix
  | Some p => p
  end.

(** The file [write_csv] leaves. *)
Definition csv_file {collab : Collaborators} (rows : list record) : file :=
  FCsv (QFXConverter.fieldnames rows)
       (QFXConverter.csv_row (QFXConverter.fieldnames rows) <$> rows).

(** The world [to_csv] leaves when it returns. *)
Definition csv_world {collab : Collaborators} (w1 : world) (path : string)
    (doc : document) : world :=
  let w2 := written w1 path (csv_file (extract_transactions doc)) in
  match extract_positions doc with
  | [] => w2
  | pos :: more =>
      written w2 (with_suffix path ".positions.csv") (csv_file (pos :: more))
  end.

(** The object [to_json] dumps. *)
Definition json_data (doc : document) : gmap string (list record) :=
  let data : gmap string (list record) :=
    {[ "transactions" := extract_transactions doc ]} in
  match extract_positions doc with
  | [] => data
  | pos :: more => <["positions" := pos :: more]> data
  end.

(** The rational [a / b]. *)
Definition ratio (a b : Z) : Q := (inject_Z a / inject_Z b)%Q.

(** The value of a decimal with at most two fractional digits, in
    hundredths. *)
Definition cents (d : decimal) : Z :=
  (Z.of_N (dec_coef d) * 10 ^ (dec_exp d + 2))%Z.

(** A name no composite attribute can produce as a derived key. *)
Definition underived (k : string) : Prop :=
  ∀ a, k ≠ a +:+ "_uniqueid" ∧ k ≠ a +:+ "_uniqueidtype".

(** What an attribute stores under its own name when the loop reaches it. *)
Definition direct_write (o : pyobj) (k : string) : option pyval :=
  match getattr o k with
  | Some v => if skipped k v then None else own_field v
  | None => None
  end.

(** What the loop body stores under the name of an attribute that may hold
    a special [Decimal], if anything. *)
Definition own_field_any (a : anyval) : option pyval :=
  match a with
  | Val v => own_field v
  | Special (Infinity negative) => Some (VFloat (S754_infinity negative))
  | Special (NaN _) => Some (VFloat S754_nan)
  | Special (sNaN _) => None
  end.

(** Where the value [x] of the key [k] of a flat record comes from: the
    account context; or the attribute of that name, which is not [None],
    and then [x] is its normalised value and is not [None]; or an identifier
    attribute of a composite attribute, and then [x] is the identifier as
    it is, [None] included. *)
Definition provenance (obj : anyobj) (account_info : record) (k : string)
    (x : pyval) : Prop :=
  account_info !! k = Some x ∨
  (∃ a, getattr obj k = Some a ∧ a ≠ Val VNone ∧
        own_field_any a = Some x ∧ x ≠ VNone) ∨
  (∃ name attrs, getattr obj name = Some (Val (VObject attrs)) ∧
     ((k = name +:+ "_uniqueid" ∧ getattr attrs "uniqueid" = Some x) ∨
      (k = name +:+ "_uniqueidtype" ∧
       getattr attrs "uniqueidtype" = Some x))).

(** The attribute is one the loop dispatches on (line 78 does not skip it)
    and holds a signaling NaN. *)
Definition holds_signaling_nan (obj : anyobj) (name : string) : Prop :=
  startswith_underscore name = false ∧
  ∃ negative, getattr obj name = Some (Special (sNaN negative)).

(** ** Sample data

    A bank statement with two transactions and a position, a statement
    without transactions, a credit-card statement, and collaborators for
    them. *)

(** A bank account and a transaction that carries an attribute named like an
    account-context field. *)
Definition bank_account : pyobj :=
  [("acctid", VStr "12345"); ("accttype", VStr "CHECKING");
   ("bankid", VStr "000000123")].

Definition colliding_trx : pyobj :=
  [("account_id", VStr "FROM-THE-TRANSACTION"); ("trntype", VStr "DEBIT")].

Definition utc (y mo d hh mi ss : Z) : datetime :=
  mk_datetime y mo d hh mi ss 0 (Some 0%Z).

Definition sample_trx1 : pyobj :=
  [("dtposted", VDatetime (utc 2024 1 15 12 0 0));
   ("fitid", VStr "1001"); ("memo", VNone);
   ("trnamt", VDecimal (mk_decimal true 2317 (-2)));
   ("trntype", VStr "DEBIT")].

Definition sample_trx2 : pyobj :=
  [("dtposted", VDatetime (utc 2024 1 16 12 0 0));
   ("fitid", VStr "1002");
   ("trnamt", VDecimal (mk_decimal true 10000 (-2)));
   ("trntype", VStr "DEBIT")].

Definition sample_pos : pyobj :=
  [("mktval", VDecimal (mk_decimal false 150000 (-2)));
   ("secid", VObject [("uniqueid", VStr "123456789");
                      ("uniqueidtype", VStr "CUSIP")]);
   ("units", VDecimal (mk_decimal false 100 0))].

Definition sample_doc : document :=
  [mk_statement bank_account (Some [sample_trx1; sample_trx2])
     (Some (Some [sample_pos]))].

(** A statement without transactions ([notrans.ofx]). *)
Definition empty_doc : document :=
  [mk_statement bank_account (Some []) None].

(** A credit-card account has neither an account type nor a bank
    identifier: [getattr] falls back to the empty string. *)
Definition card_account : pyobj := [("acctid", VStr "4111111111111111")].

Definition card_doc : document :=
  [mk_statement card_account (Some [sample_trx1]) None].

(** Collaborators for the examples: every byte file parses to [doc]; the
    sample paths have no suffix, where [with_suffix] appends the new one;
    there is no directory [nodir], so [nodir/out] cannot be opened for
    writing, and every other path can. *)
Definition sample_collaborators (doc : document) : Collaborators := {|
  ofx_parse f := match f with
                 | FBytes _ => inr doc
                 | _ => inl "not an OFX file"
                 end;
  open_error path := "No such file or directory: " +:+ path;
  write_failure path :=
    if decide (path = "nodir/out")
    then Some (NoSuchDirectory
                 "[Errno 2] No such file or directory: 'nodir/out'")
    else None;
  with_suffix path suffix := path +:+ suffix;
  py_str _ := "<value>";
  with_suffix_positions path :=
    ltac:(induction path as [|c path IH]; intros H;
          [discriminate H|injection H as H; exact (IH H)])
|}.

Definition sample_world : world :=
  mk_world {[ "statement" := FBytes "OFXHEADER:100" ]} [].

Definition half_cent : decimal := mk_decimal false 5 (-3).

(** A transaction whose amount is the signaling NaN of [Decimal]. *)
Definition signaling_trx : anyobj :=
  [("fitid", Val (VStr "1001")); ("trnamt", Special (sNaN false))].

(** A transaction whose composite attribute has a null identifier. *)
Definition null_identifier_trx : pyobj :=
  [("secid", VObject [("uniqueid", VNone)])].

(** ** Vocabulary of the further properties *)

(** The positions of a statement, as the loop of line 117 visits them. *)
Definition statement_positions (st : statement) : list pyobj :=
  match positions st with
  | Some (Some stmt_positions) => stmt_positions
  | _ => []
  end.

(** The position records of one statement, in the order of its positions. *)
Definition position_records (st : statement) : list record :=
  (λ pos, _position_to_dict pos (position_account_info (account st)))
    <$> statement_positions st.


(** A name the step at [name] may assign to. *)
Definition touches (name k : string) : Prop :=
  k = name ∨ k = name +:+ "_uniqueid" ∨ k = name +:+ "_uniqueidtype".

(** A transaction whose attribute [secid_uniqueid] collides with the key
    derived from its composite attribute [secid]. *)
Definition derived_collision_trx : pyobj :=
  [("secid_uniqueid", VStr "OWN");
   ("secid", VObject [("uniqueid", VStr "DERIVED")])].

Definition is_parse (e : event) : bool :=
  match e with EvParse _ => true | EvOpenWrite _ => false end.

(** How many times the parser was invoked, by the log. *)
Definition parse_count (w : world) : nat :=
  length (filter (λ e, is_parse e = true) (log w)).

(** Collaborators whose parser rejects every file. *)
Definition rejecting_collaborators : Collaborators := {|
  ofx_parse _ := inl "syntax error";
  open_error path := "No such file or directory: " +:+ path;
  write_failure path :=
    if decide (path = "nodir/out")
    then Some (NoSuchDirectory
                 "[Errno 2] No such file or directory: 'nodir/out'")
    else None;
  with_suffix path suffix := path +:+ suffix;
  py_str _ := "<value>";
  with_suffix_positions path :=
    ltac:(induction path as [|c path IH]; intros H;
          [discriminate H|injection H as H; exact (IH H)])
|}.

(** The fraction [float_of_decimal] rounds: numerator and denominator. *)
Definition dec_num (d : decimal) : Z :=
  (if 0 <=? dec_exp d then Z.of_N (dec_coef d) * 10 ^ dec_exp d
   else Z.of_N (dec_coef d))%Z.

Definition dec_den (d : decimal) : Z :=
  (if 0 <=? dec_exp d then 1 else 10 ^ (- dec_exp d))%Z.

(** ** The command line (cli.py) *)

Module Cli.

(** The namespace [parse_args] returns. *)
Record args := mk_args {
  input_files : list string;
  (** ['csv'] or ['json'] *)
  format : string;
  output : option string;
  compact : bool;
  quiet : bool
}.

Inductive stream := Stdout | Stderr.

(** What [main] has counted and printed so far, and the world it left. *)
Record progress := mk_progress {
  success_count : nat;
  error_count : nat;
  console : list (stream * string);
  now : world
}.

(** [args.output if args.output else None]: the empty string counts as no
    output path. *)
Definition output_file (a : args) : option string :=
  match output a with
  | Some "" | None => None
  | Some path => Some path
  end.

(** [print] to standard output, under [if not args.quiet]. *)
Definition info (a : args) (lines : list string) : list (stream * string) :=
  if quiet a then [] else (λ line, (Stdout, line)) <$> lines.

Section main.
Context {collab : Collaborators}.
(** [Path.is_dir]: the paths that are directories. *)
Context (is_dir : string → bool).

(** The body of the [try] (lines 98-105): construct the converter and run
    the selected method. *)
Definition convert (a : args) (input_file : string) (w : world)
  : (exn + string) * world :=
  match QFXConverter.__init__ input_file w with
  | (inl e, w') => (inl e, w')
  | (inr converter, w') =>
      let m :=
        if decide (format a = "json")
        then QFXConverter.to_json (output_file a) (if compact a then 0 else 2)
        else QFXConverter.to_csv (output_file a) in
      let '(r, (_, w'')) := m (converter, w') in
      (r, w'')
  end.

(** The [except] clauses (lines 117-125): the line printed for an error. *)
Definition error_line (input_file : string) (e : exn) : string :=
  match e with
  | FileNotFoundError msg | ValueError msg =>
      "Error processing " +:+ input_file +:+ ": " +:+ msg
  | TypeError msg | AttributeError msg | OSError msg =>
      "Unexpected error processing " +:+ input_file +:+ ": " +:+ msg
  end.

(** One iteration of [for input_file in args.input_files] (lines 82-125). *)
Definition step (a : args) (p : progress) (input_file : string) : progress :=
  if negb (exists_ (now p) input_file) then
    mk_progress (success_count p) (S (error_count p))
      (console p ++ [(Stderr, "Error: File not found: " +:+ input_file)])
      (now p)
  else if is_dir input_file then
    mk_progress (success_count p) (error_count p)
      (console p ++
       [(Stderr, "Warning: Skipping directory: " +:+ input_file)])
      (now p)
  else
    let shown :=
      console p ++ info a ["Processing " +:+ input_file +:+ "..."] in
    match convert a input_file (now p) with
    | (inr output_path, w) =>
        let positions_file := with_suffix output_path ".positions.csv" in
        mk_progress (S (success_count p)) (error_count p)
          (shown ++
           info a (("  ✓ Created: " +:+ output_path) ::
                   if decide (format a = "csv")
                   then if exists_ w positions_file
                        then ["  ✓ Created: " +:+ positions_file]
                        else []
                   else []))
          w
    | (inl e, w) =>
        mk_progress (success_count p) (S (error_count p))
          (shown ++ [(Stderr, error_line input_file e)]) w
    end.

Definition loop (a : args) (p : progress) (files : list string) : progress :=
  foldl (step a) p files.

(** [main], from the parsed arguments on: the exit code, what was printed,
    and the world it leaves (lines 74-130). *)
Definition main (a : args) (w : world)
  : nat * list (stream * string) * world :=
  if bool_decide (is_Some (output_file a))
     && (1 <? length (input_files a))%nat
  then (1%nat,
        [(Stderr, "Error: Cannot specify single output file (-o) with " +:+
                  "multiple input files")],
        w)
  else
    let p := loop a (mk_progress 0 0 [] w) (input_files a) in
    (if (error_count p =? 0)%nat then 0%nat else 1%nat,
     console p ++
     (if (1 <? length (input_files a))%nat
      then info a [String (ascii_of_nat 10)
                     ("Processed " +:+ pretty (success_count p) +:+
                      " file(s) successfully, " +:+
                      pretty (error_count p) +:+ " error(s)")]
      else []),
     now p).
End main.
End Cli.

(** The arguments with another list of input files, or another [quiet]. *)
Definition with_inputs (a : Cli.args) (files : list string) : Cli.args :=
  Cli.mk_args files (Cli.format a) (Cli.output a) (Cli.compact a)
    (Cli.quiet a).

Definition with_quiet (a : Cli.args) (q : bool) : Cli.args :=
  Cli.mk_args (Cli.input_files a) (Cli.format a) (Cli.output a)
    (Cli.compact a) q.

Definition on_stderr (line : Cli.stream * string) : bool :=
  match line.1 with Cli.Stderr => true | Cli.Stdout => false end.

(** The quiet run and the loud run agree on everything but standard
    output. *)
Definition same_but_stdout (silent loud : Cli.progress) : Prop :=
  Cli.success_count silent = Cli.success_count loud ∧
  Cli.error_count silent = Cli.error_count loud ∧
  Cli.now silent = Cli.now loud ∧
  Cli.console silent = filter (λ l, on_stderr l = true) (Cli.console loud).

(** * Part II: lemmas and theorems *)

(** ** The definitions on concrete inputs *)

Example isoformat_utc :
  isoformat (utc 2024 1 15 12 0 0) = "2024-01-15T12:00:00+00:00".
Proof. reflexivity. Qed.

Example isoformat_naive_early_year :
  isoformat (mk_datetime 24 1 2 3 4 5 0 None) = "0024-01-02T03:04:05".
Proof. reflexivity. Qed.

Example isoformat_microseconds_and_offset :
  isoformat (mk_datetime 2024 1 2 3 4 5 7 (Some (-17996999998)%Z))
  = "2024-01-02T03:04:05.000007-04:59:56.999998".
Proof. reflexivity. Qed.

(** [float(Decimal('-23.17')).hex() == '-0x1.72b851eb851ecp+4'] *)
Example float_of_decimal_amount :
  float_of_decimal (mk_decimal true 2317 (-2))
  = S754_finite true 6521775210385900 (-48).
Proof. reflexivity. Qed.

(** [float(Decimal('1E+23')).hex() == '0x1.52d02c7e14af6p+76'] *)
Example float_of_decimal_large :
  float_of_decimal (mk_decimal false 1 23)
  = S754_finite false 5960464477539062 24.
Proof. reflexivity. Qed.

Example float_of_decimal_overflow :
  float_of_decimal (mk_decimal false 1 400) = S754_infinity false.
Proof. vm_compute. reflexivity. Qed.

Example float_of_decimal_underflow :
  float_of_decimal (mk_decimal true 1 (-400)) = S754_zero true.
Proof. vm_compute. reflexivity. Qed.

Example float_of_decimal_subnormal :
  float_of_decimal (mk_decimal false 5 (-324)) = S754_finite false 1 (-1074).
Proof. vm_compute. reflexivity. Qed.

(** [round(2.675, 2) == 2.67] and [round(0.125, 2) == 0.12] *)
Example py_round_below_half :
  py_round (float_of_decimal (mk_decimal false 2675 (-3))) 2
  = float_of_decimal (mk_decimal false 267 (-2)).
Proof. vm_compute. reflexivity. Qed.

Example py_round_tie_to_even :
  py_round (float_of_decimal (mk_decimal false 125 (-3))) 2
  = float_of_decimal (mk_decimal false 12 (-2)).
Proof. vm_compute. reflexivity. Qed.

Example dir_sorted_unique :
  dir [("trntype", VNone); ("_x", VNone); ("fitid", VNone); ("Z", VNone);
       ("fitid", VNone)]
  = ["Z"; "_x"; "fitid"; "trntype"].
Proof. vm_compute. reflexivity. Qed.

(** The flat record of the first sample transaction: the null [memo] is
    absent, the date is a string, the amount a float. *)
Example flatten_sample_trx1 :
  let r := _transaction_to_dict sample_trx1
             (transaction_account_info bank_account) in
  r !! "account_id" = Some (VStr "12345") ∧
  r !! "bank_id" = Some (VStr "000000123") ∧
  r !! "dtposted" = Some (VStr "2024-01-15T12:00:00+00:00") ∧
  r !! "trnamt" = Some (VFloat (S754_finite true 6521775210385900 (-48))) ∧
  r !! "memo" = None.
Proof. cbn zeta. repeat split; vm_compute; reflexivity. Qed.

(** The flat record of the sample position: the composite [secid] gives
    the two derived fields and no field of its own. *)
Example flatten_sample_pos :
  let r := _position_to_dict sample_pos (position_account_info bank_account) in
  r !! "secid_uniqueid" = Some (VStr "123456789") ∧
  r !! "secid_uniqueidtype" = Some (VStr "CUSIP") ∧
  r !! "secid" = None ∧
  r !! "broker_id" = Some (VStr "").
Proof. cbn zeta. repeat split; vm_compute; reflexivity. Qed.

(** An output path in a directory that does not exist: [open] raises, no
    file is written, and the command line reports the error and exits with
    code 1. *)
Example to_json_missing_directory :
  let collab := sample_collaborators sample_doc in
  let run :=
    QFXConverter.to_json (Some "nodir/out") 2
      (fresh "statement", sample_world) in
  let cli :=
    Cli.main (λ _, false)
      (Cli.mk_args ["statement"] "json" (Some "nodir/out") false true)
      sample_world in
  run.1 = inl (FileNotFoundError
                 "[Errno 2] No such file or directory: 'nodir/out'") ∧
  fs run.2.2 = fs sample_world ∧
  cli.1.1 = 1%nat ∧
  cli.1.2 = [(Cli.Stderr,
              "Error processing statement: " +:+
              "[Errno 2] No such file or directory: 'nodir/out'")] ∧
  fs cli.2 = fs sample_world.
Proof. cbn zeta. repeat split; vm_compute; reflexivity. Qed.

(** The scenario of the sample document: a CSV file with two rows and a
    positions file with one row. *)
Example to_csv_sample :
  let collab := sample_collaborators sample_doc in
  let run :=
    QFXConverter.to_csv (Some "out") (fresh "statement", sample_world) in
  run.1 = inr "out" ∧
  (∃ rows, fs run.2.2 !! "out"
           = Some (FCsv ["account_id"; "account_type"; "bank_id"; "dtposted";
                         "fitid"; "trnamt"; "trntype"] rows)
           ∧ length rows = 2%nat) ∧
  (∃ header rows, fs run.2.2 !! "out.positions.csv"
                  = Some (FCsv header rows) ∧ length rows = 1%nat) ∧
  log run.2.2 = [EvParse "statement"; EvOpenWrite "out";
                 EvOpenWrite "out.positions.csv"].
Proof.
  cbn zeta. split; [vm_compute; reflexivity|].
  split; [eexists; split; [vm_compute; reflexivity|reflexivity]|].
  split; [eexists _, _; split; [vm_compute; reflexivity|reflexivity]|].
  vm_compute. reflexivity.
Qed.

(** ** Objects *)

Lemma getattr_Some_elem_of {A} (o : list (string * A)) name v :
  getattr o name = Some v → (name, v) ∈ o.
Proof.
  induction o as [|[n x] o IH]; simpl; [done|].
  case_decide as Hn; intros Hv.
  - simplify_eq. apply list_elem_of_here.
  - apply list_elem_of_further, IH, Hv.
Qed.

Lemma getattr_is_Some {A} (o : list (string * A)) name :
  is_Some (getattr o name) ↔ name ∈ o.*1.
Proof.
  induction o as [|[n x] o IH]; simpl.
  - split; [by intros [? ?]|by intros ?%elem_of_nil].
  - case_decide as Hn.
    + subst. split; [intros _; apply list_elem_of_here|eauto].
    + rewrite IH, elem_of_cons. intuition congruence.
Qed.

Lemma elem_of_dir {A} (o : list (string * A)) name :
  name ∈ dir o ↔ is_Some (getattr o name).
Proof.
  unfold dir. rewrite merge_sort_Permutation, elem_of_remove_dups.
  symmetry. apply getattr_is_Some.
Qed.

(** ** Flattening *)

Ltac peel_prefix a :=
  repeat (destruct a as [|? a]; simpl in *; simplify_eq).

Lemma account_fields_underived k : k ∈ account_fields → underived k.
Proof.
  unfold account_fields. rewrite !elem_of_cons, elem_of_nil.
  intros [->|[->|[->|[->|[]]]]] a; split; intros H; peel_prefix a.
Qed.

Lemma account_fields_public k :
  k ∈ account_fields → startswith_underscore k = false.
Proof.
  unfold account_fields. rewrite !elem_of_cons, elem_of_nil.
  by intros [->|[->|[->|[->|[]]]]].
Qed.

Lemma normalize_keys name v k x :
  (k, x) ∈ normalize name v →
  (k = name ∧ own_field v = Some x) ∨
  (∃ attrs, v = VObject attrs ∧
     ((k = name +:+ "_uniqueid" ∧ getattr attrs "uniqueid" = Some x) ∨
      (k = name +:+ "_uniqueidtype" ∧ getattr attrs "uniqueidtype" = Some x))).
Proof.
  destruct v; simpl; rewrite ?elem_of_nil, ?list_elem_of_singleton;
    try (intros ?; simplify_eq; by left); try done.
  intros H. right. exists attrs. split; [done|].
  apply elem_of_app in H as [H|H]; [left|right];
    (destruct (getattr attrs _); [|by apply elem_of_nil in H]);
    apply list_elem_of_singleton in H; by simplify_eq.
Qed.

(** The effect of the dispatch on a key that is not a derived one. *)
Lemma normalize_lookup name v d k :
  underived k →
  foldl assign d (normalize name v) !! k =
    if decide (name = k) then from_option Some (d !! k) (own_field v)
    else d !! k.
Proof.
  intros Hk. unfold assign.
  destruct v; simpl; try (case_decide; simplify_map_eq; done).
  destruct (Hk name) as [H1 H2].
  assert (foldl (λ d kv, <[kv.1:=kv.2]> d) d
            (match getattr attrs "uniqueid" with
             | Some u => [(name +:+ "_uniqueid", u)] | None => [] end ++
             match getattr attrs "uniqueidtype" with
             | Some t => [(name +:+ "_uniqueidtype", t)] | None => [] end) !! k
          = d !! k) as ->.
  { destruct (getattr attrs "uniqueid"), (getattr attrs "uniqueidtype");
      simpl; by simplify_map_eq. }
  by case_decide.
Qed.

Lemma attr_step_lookup o d name k :
  underived k →
  attr_step o d name !! k =
    if decide (name = k) then from_option Some (d !! k) (direct_write o k)
    else d !! k.
Proof.
  intros Hk. unfold attr_step, direct_write, skipped.
  destruct (getattr o name) as [v|] eqn:Hv.
  - destruct (startswith_underscore name || callable v) eqn:Hs.
    + case_decide; [subst; by rewrite Hv, Hs|done].
    + rewrite normalize_lookup by done.
      case_decide; [subst; by rewrite Hv, Hs|done].
  - case_decide; [subst; by rewrite Hv|done].
Qed.

Lemma attr_loop_lookup o names d k :
  underived k →
  foldl (attr_step o) d names !! k =
    if decide (k ∈ names) then from_option Some (d !! k) (direct_write o k)
    else d !! k.
Proof.
  intros Hk. revert d. induction names as [|n names IH]; intros d; cbn [foldl].
  - by rewrite decide_False by apply not_elem_of_nil.
  - rewrite IH. rewrite attr_step_lookup by exact Hk.
    destruct (decide (k ∈ n :: names)) as [Hc|Hc]; rewrite elem_of_cons in Hc;
      destruct (decide (n = k)) as [->|Hn]; destruct (decide (k ∈ names));
      try destruct (direct_write o k); simpl; try done;
      exfalso; intuition congruence.
Qed.

Lemma dict_update_empty (d : record) : dict_update ∅ d = d.
Proof. unfold dict_update. apply (right_id_L ∅ (∪)). Qed.

Lemma flatten_lookup o (account_info : record) k :
  underived k →
  foldl (attr_step o) (dict_update ∅ account_info) (dir o) !! k =
    from_option Some (account_info !! k) (direct_write o k).
Proof.
  intros Hk. rewrite attr_loop_lookup, dict_update_empty by done.
  case_decide as Hin; [done|].
  unfold direct_write. rewrite elem_of_dir in Hin.
  destruct (getattr o k); [|done]. destruct Hin; eauto.
Qed.

(** ** C1: which value survives a name collision *)

(** C1, refuted as stated: the transaction (and the position) attribute
    [account_id] is a non-null string, the account context holds ["12345"]
    for [account_id], and the flat record holds the attribute's value, not
    the account context's. *)
Lemma C1_counterexample :
  let account_info := transaction_account_info bank_account in
  let pos_info := position_account_info bank_account in
  "account_id" ∈ account_fields ∧
  getattr colliding_trx "account_id" = Some (VStr "FROM-THE-TRANSACTION") ∧
  account_info !! "account_id" = Some (VStr "12345") ∧
  pos_info !! "account_id" = Some (VStr "12345") ∧
  _transaction_to_dict colliding_trx account_info !! "account_id"
    = Some (VStr "FROM-THE-TRANSACTION") ∧
  _position_to_dict colliding_trx pos_info !! "account_id"
    = Some (VStr "FROM-THE-TRANSACTION") ∧
  _transaction_to_dict colliding_trx account_info !! "account_id"
    ≠ account_info !! "account_id" ∧
  _position_to_dict colliding_trx pos_info !! "account_id"
    ≠ pos_info !! "account_id".
Proof.
  cbv zeta. split; [apply list_elem_of_here|].
  repeat split; try (vm_compute; congruence); vm_compute; reflexivity.
Qed.

(** C1, amended: when the object exposes an attribute named like an
    account-context field, the flat record holds under that name the
    attribute's normalised value if the attribute is a datetime, a Decimal, a
    string, an integer, a float or a boolean (the loop runs after the account
    context is written and overwrites it); the account-context value
    survives exactly when the attribute is None, callable or composite. *)
Theorem C1_collision_object_attribute_wins
    (obj : pyobj) (account_info : record) (k : string) (v : pyval) :
  k ∈ account_fields →
  getattr obj k = Some v →
  _transaction_to_dict obj account_info !! k
    = from_option Some (account_info !! k) (own_field v) ∧
  _position_to_dict obj account_info !! k
    = from_option Some (account_info !! k) (own_field v).
Proof.
  intros Hk Hv.
  assert (direct_write obj k = own_field v) as <-.
  { unfold direct_write, skipped.
    rewrite Hv, (account_fields_public k Hk). by destruct v. }
  split; apply flatten_lookup, account_fields_underived, Hk.
Qed.

Lemma C1_collision_object_attribute_wins_witness :
  "account_id" ∈ account_fields ∧
  getattr colliding_trx "account_id" = Some (VStr "FROM-THE-TRANSACTION") ∧
  _transaction_to_dict colliding_trx (transaction_account_info bank_account)
    !! "account_id" = Some (VStr "FROM-THE-TRANSACTION").
Proof.
  split; [apply list_elem_of_here|]. split; [reflexivity|].
  apply (C1_collision_object_attribute_wins colliding_trx
           (transaction_account_info bank_account) "account_id"
           (VStr "FROM-THE-TRANSACTION")); [apply list_elem_of_here|reflexivity].
Defined.

(** ** C4: the contract of the normaliser *)

Lemma append_not_self (s t : string) : t ≠ "" → s ≠ s +:+ t.
Proof.
  intros Ht. induction s as [|c s IH]; intros H.
  - apply Ht. symmetry. exact H.
  - apply IH. by injection H.
Qed.

(** On an object of finite decimals the loop that can raise does not, and
    returns the record of [_transaction_to_dict]. *)
Lemma getattr_plain (o : pyobj) name :
  getattr (plain o) name = Val <$> getattr o name.
Proof.
  induction o as [|[n v] o IH]; [done|].
  cbn. case_decide; [done|exact IH].
Qed.

Lemma dir_plain (o : pyobj) : dir (plain o) = dir o.
Proof.
  unfold dir, plain. f_equal. f_equal.
  rewrite <- list_fmap_compose. by apply list_fmap_ext.
Qed.

Lemma attr_step_any_plain (o : pyobj) d name :
  attr_step_any (plain o) d name = inr (attr_step o d name).
Proof.
  unfold attr_step_any, attr_step. rewrite getattr_plain.
  destruct (getattr o name) as [v|]; [|done]. cbn.
  by destruct (startswith_underscore name || callable v).
Qed.

Lemma attr_loop_any_plain (o : pyobj) names d :
  attr_loop_any (plain o) d names = inr (foldl (attr_step o) d names).
Proof.
  revert d. induction names as [|n names IH]; intros d; [done|].
  cbn [attr_loop_any foldl]. by rewrite attr_step_any_plain, IH.
Qed.

(** The only exception, and the only value that raises it. *)
Lemma normalize_any_raises name a e :
  normalize_any name a = inl e →
  e = signaling_nan ∧ ∃ negative, a = Special (sNaN negative).
Proof.
  destruct a as [v|[negative|negative|negative]]; cbn; intros H;
    simplify_eq. eauto.
Qed.

Lemma attr_step_any_raises o d name e :
  attr_step_any o d name = inl e →
  e = signaling_nan ∧ holds_signaling_nan o name.
Proof.
  unfold attr_step_any, holds_signaling_nan.
  destruct (getattr o name) as [a|]; [|done].
  destruct (startswith_underscore name) eqn:Hs; [done|]. cbn [orb].
  destruct (callable_any a); [done|].
  destruct (normalize_any name a) as [e'|l] eqn:Hn; [|done].
  intros H. simplify_eq.
  apply normalize_any_raises in Hn as [-> [negative ->]]. eauto.
Qed.

Lemma attr_step_any_signaling o d name :
  holds_signaling_nan o name → attr_step_any o d name = inl signaling_nan.
Proof.
  intros [Hs [negative Ha]]. unfold attr_step_any. by rewrite Ha, Hs.
Qed.

Lemma attr_loop_any_raises o names d e :
  attr_loop_any o d names = inl e →
  e = signaling_nan ∧ ∃ name, name ∈ names ∧ holds_signaling_nan o name.
Proof.
  revert d. induction names as [|n names IH]; intros d; cbn [attr_loop_any];
    [done|].
  destruct (attr_step_any o d n) as [e'|d'] eqn:Hstep.
  - intros H. simplify_eq.
    apply attr_step_any_raises in Hstep as [-> Hn].
    split; [done|]. exists n. split; [apply list_elem_of_here|done].
  - intros [-> (name & Hin & Hname)]%IH.
    split; [done|]. exists name. split; [by apply list_elem_of_further|done].
Qed.

Lemma attr_loop_any_signaling o names d name :
  name ∈ names → holds_signaling_nan o name →
  attr_loop_any o d names = inl signaling_nan.
Proof.
  intros Hin Hname. revert d.
  induction names as [|n names IH]; intros d; [by apply elem_of_nil in Hin|].
  cbn [attr_loop_any].
  destruct (attr_step_any o d n) as [e'|d'] eqn:Hstep.
  - by apply attr_step_any_raises in Hstep as [-> _].
  - apply elem_of_cons in Hin as [->|Hin]; [|by apply IH].
    rewrite (attr_step_any_signaling o d n Hname) in Hstep. discriminate Hstep.
Qed.

(** What the dispatch assigns. *)
Lemma normalize_any_keys name a l k x :
  normalize_any name a = inr l → (k, x) ∈ l →
  (k = name ∧ a ≠ Val VNone ∧ own_field_any a = Some x ∧ x ≠ VNone) ∨
  (∃ attrs, a = Val (VObject attrs) ∧
     ((k = name +:+ "_uniqueid" ∧ getattr attrs "uniqueid" = Some x) ∨
      (k = name +:+ "_uniqueidtype" ∧ getattr attrs "uniqueidtype" = Some x))).
Proof.
  destruct a as [v|[negative|negative|negative]]; cbn; intros H Hin;
    simplify_eq.
  - apply normalize_keys in Hin as [[-> Hx]|(attrs & -> & Hc)].
    + left. split; [done|].
      destruct v; cbn in Hx; simplify_eq; repeat split; congruence.
    + right. eauto.
  - apply list_elem_of_singleton in Hin. simplify_eq. by left.
  - apply list_elem_of_singleton in Hin. simplify_eq. by left.
Qed.

Lemma foldl_assign_lookup (l : list (string * pyval)) (d : record) k x :
  foldl assign d l !! k = Some x → d !! k = Some x ∨ (k, x) ∈ l.
Proof.
  revert d. induction l as [|[k' x'] l IH]; intros d; cbn [foldl]; [by left|].
  intros [H|H]%IH.
  - unfold assign in H. cbn in H.
    destruct (decide (k' = k)) as [->|Hne].
    + rewrite lookup_insert_eq in H. simplify_eq.
      right. apply list_elem_of_here.
    + rewrite lookup_insert_ne in H by done. by left.
  - right. by apply list_elem_of_further.
Qed.

Lemma attr_step_any_provenance o (account_info d d' : record) name :
  (∀ k x, d !! k = Some x → provenance o account_info k x) →
  attr_step_any o d name = inr d' →
  ∀ k x, d' !! k = Some x → provenance o account_info k x.
Proof.
  intros Hd. unfold attr_step_any.
  destruct (getattr o name) as [a|] eqn:Ha; [|by intros ?; simplify_eq].
  destruct (startswith_underscore name || callable_any a);
    [by intros ?; simplify_eq|].
  destruct (normalize_any name a) as [e|l] eqn:Hn; [done|].
  intros ? k x Hk. simplify_eq.
  apply foldl_assign_lookup in Hk as [H|H]; [by apply Hd|].
  destruct (normalize_any_keys name a l k x Hn H)
    as [(-> & Hnone & Hx & Hxn)|(attrs & -> & Hc)].
  - right; left. eauto.
  - right; right. eauto.
Qed.

Lemma attr_loop_any_provenance o (account_info : record) names d r :
  (∀ k x, d !! k = Some x → provenance o account_info k x) →
  attr_loop_any o d names = inr r →
  ∀ k x, r !! k = Some x → provenance o account_info k x.
Proof.
  revert d. induction names as [|n names IH]; intros d Hd;
    cbn [attr_loop_any].
  - by intros ?; simplify_eq.
  - destruct (attr_step_any o d n) as [e|d'] eqn:Hstep; [done|].
    apply IH. by eapply attr_step_any_provenance.
Qed.

Lemma holds_signaling_nan_dir o name :
  holds_signaling_nan o name → name ∈ dir o.
Proof.
  intros [_ [negative H]]. apply elem_of_dir. eauto.
Qed.

(** C4, refuted as stated: the attribute [trnamt] of a transaction holds the
    signaling NaN of [Decimal]; the dispatch of the loop body raises
    [ValueError] on it (the [float] of line 89), and so do
    [_transaction_to_dict] and [_position_to_dict] on the object. *)
Lemma C4_counterexample :
  normalize_any "trnamt" (Special (sNaN false))
    = inl (ValueError "cannot convert signaling NaN to float") ∧
  _transaction_to_dict_any signaling_trx
    (transaction_account_info bank_account)
    = inl (ValueError "cannot convert signaling NaN to float") ∧
  _position_to_dict_any signaling_trx (position_account_info bank_account)
    = inl (ValueError "cannot convert signaling NaN to float").
Proof. repeat split; vm_compute; reflexivity. Qed.

(** A derived field holds the identifier as it is: [None] when the
    composite's [uniqueid] is [None]. *)
Example derived_field_null :
  _transaction_to_dict null_identifier_trx ∅ !! "secid_uniqueid" = Some VNone ∧
  _transaction_to_dict_any (plain null_identifier_trx) ∅
    = inr (_transaction_to_dict null_identifier_trx ∅).
Proof. split; vm_compute; reflexivity. Qed.

(** C4, amended: the dispatch of the loop body raises exactly when the
    attribute value is a signaling NaN [Decimal], and then [ValueError];
    on every other value it returns its assignments. Among them, a field of
    the attribute's own name is there only if the value is not [None], and
    what it holds is not [None]; a null value and an object that is neither
    a scalar nor a composite give nothing; a composite gives at most two
    fields, named [<fieldname>_uniqueid] and [<fieldname>_uniqueidtype],
    present exactly when the composite has the identifier attribute and
    holding that attribute as it is (which can be [None]), and no field of
    its own name; a composite without identifier attributes gives nothing.
    On the whole object, [_transaction_to_dict] and [_position_to_dict]
    raise exactly when an attribute that line 78 does not skip is a
    signaling NaN; when they return, every value of the record comes from
    the account context, from the non-null attribute of that name (and is
    not [None]), or from an identifier of a composite attribute; under the
    name of a composite attribute the record holds nothing but what the
    account context holds there. On an object of finite decimals they
    return the record of the flattening of Part I. *)
Theorem C4_normalizer_contract (name : string) (a : anyval) :
  (normalize_any name a = inl signaling_nan ↔
   ∃ negative, a = Special (sNaN negative)) ∧
  (∀ e, normalize_any name a = inl e → e = signaling_nan) ∧
  ((∀ negative, a ≠ Special (sNaN negative)) →
   ∃ l, normalize_any name a = inr l) ∧
  (∀ l, normalize_any name a = inr l →
     (∀ x, (name, x) ∈ l →
        a ≠ Val VNone ∧ x ≠ VNone ∧ own_field_any a = Some x) ∧
     (a = Val VNone → l = []) ∧
     (a = Val VOpaque → l = []) ∧
     (∀ attrs, a = Val (VObject attrs) →
        (length l ≤ 2)%nat ∧
        (∀ k x, (k, x) ∈ l →
           ((k = name +:+ "_uniqueid" ∧ getattr attrs "uniqueid" = Some x) ∨
            (k = name +:+ "_uniqueidtype" ∧
             getattr attrs "uniqueidtype" = Some x)) ∧
           k ≠ name) ∧
        (∀ u, getattr attrs "uniqueid" = Some u →
           (name +:+ "_uniqueid", u) ∈ l) ∧
        (∀ t, getattr attrs "uniqueidtype" = Some t →
           (name +:+ "_uniqueidtype", t) ∈ l) ∧
        (getattr attrs "uniqueid" = None →
         getattr attrs "uniqueidtype" = None → l = []))) ∧
  (∀ (obj : anyobj) (account_info : record),
     let run := _transaction_to_dict_any obj account_info in
     _position_to_dict_any obj account_info = run ∧
     (run = inl signaling_nan ↔ ∃ n, holds_signaling_nan obj n) ∧
     (∀ e, run = inl e → e = signaling_nan) ∧
     (∀ r, run = inr r →
        (∀ k x, r !! k = Some x → provenance obj account_info k x) ∧
        (∀ n attrs x, getattr obj n = Some (Val (VObject attrs)) →
           underived n → r !! n = Some x → account_info !! n = Some x))) ∧
  (∀ (obj : pyobj) (account_info : record),
     _transaction_to_dict_any (plain obj) account_info
       = inr (_transaction_to_dict obj account_info) ∧
     _position_to_dict_any (plain obj) account_info
       = inr (_position_to_dict obj account_info)).
Proof.
  split; [|split; [|split; [|split; [|split]]]].
  - split.
    + by intros [_ H]%normalize_any_raises.
    + by intros [negative ->].
  - by intros e [-> _]%normalize_any_raises.
  - intros Hne. destruct (normalize_any name a) as [e|l] eqn:Hn; [|eauto].
    apply normalize_any_raises in Hn as [_ [negative ->]].
    by destruct (Hne negative).
  - intros l Hl. split; [|split; [|split]].
    + intros x Hx.
      destruct (normalize_any_keys name a l name x Hl Hx)
        as [(_ & H1 & H2 & H3)|(attrs & -> & [[Hk _]|[Hk _]])];
        [done| |]; by apply append_not_self in Hk.
    + intros ->. cbn in Hl. by simplify_eq.
    + intros ->. cbn in Hl. by simplify_eq.
    + intros attrs ->.
      assert (l = normalize name (VObject attrs)) as ->
        by (injection Hl as Hl; symmetry; exact Hl).
      repeat split.
      * simpl. destruct (getattr attrs "uniqueid"),
          (getattr attrs "uniqueidtype"); simpl; lia.
      * apply normalize_keys in H as [[_ Hx]|(attrs' & Heq & Hc)]; [done|].
        by simplify_eq.
      * apply normalize_keys in H as [[_ Hx]|(attrs' & Heq & [[-> _]|[-> _]])];
          [done| |]; intros Hn; symmetry in Hn;
          by apply append_not_self in Hn.
      * intros u Hu. simpl. rewrite Hu. apply elem_of_app. left.
        apply list_elem_of_here.
      * intros t Ht. simpl. rewrite Ht. apply elem_of_app. right.
        apply list_elem_of_here.
      * intros Hu Ht. simpl. by rewrite Hu, Ht.
  - intros obj account_info. cbn zeta.
    unfold _position_to_dict_any, _transaction_to_dict_any. cbn zeta.
    split; [done|]. split; [|split].
    + split.
      * intros (_ & n & _ & Hn)%attr_loop_any_raises. eauto.
      * intros [n Hn]. apply (attr_loop_any_signaling _ _ _ n); [|done].
        by apply holds_signaling_nan_dir.
    + by intros e [-> _]%attr_loop_any_raises.
    + intros r Hr.
      assert (∀ k x, r !! k = Some x → provenance obj account_info k x)
        as Hprov.
      { eapply attr_loop_any_provenance; [|exact Hr].
        intros k x Hx. rewrite dict_update_empty in Hx. by left. }
      split; [exact Hprov|].
      intros n attrs x Hn Hund Hx.
      destruct (Hprov n x Hx)
        as [H|[(a' & Ha' & _ & Hown & _)|(n' & attrs' & _ & [[Hk _]|[Hk _]])]].
      * exact H.
      * rewrite Hn in Ha'. by simplify_eq.
      * by destruct (Hund n') as [? _].
      * by destruct (Hund n') as [_ ?].
  - intros obj account_info.
    unfold _position_to_dict_any, _transaction_to_dict_any,
      _position_to_dict, _transaction_to_dict. cbn zeta.
    by rewrite dir_plain, attr_loop_any_plain.
Qed.

(** ** C2: extraction keeps every transaction, in order *)

Lemma foldl_snoc_fmap {A B} (f : A → B) (l : list A) (acc : list B) :
  foldl (λ acc x, acc ++ [f x]) acc l = acc ++ (f <$> l).
Proof.
  revert acc. induction l as [|x l IH]; intros acc; cbn [foldl fmap list_fmap].
  - by rewrite app_nil_r.
  - by rewrite IH, <- app_assoc.
Qed.

Lemma transactions_step_spec acc st :
  transactions_step acc st = acc ++ statement_records st.
Proof.
  unfold transactions_step, statement_records, statement_transactions.
  destruct (transactions st) as [[|trx rest]|]; simpl default;
    [by rewrite app_nil_r| |by rewrite app_nil_r].
  apply (foldl_snoc_fmap
           (λ trx, _transaction_to_dict trx
                     (transaction_account_info (account st)))).
Qed.

Lemma foldl_transactions_step acc (doc : document) :
  foldl transactions_step acc doc
    = acc ++ concat (statement_records <$> doc).
Proof.
  revert acc. induction doc as [|st doc IH]; intros acc;
    cbn [foldl fmap list_fmap concat].
  - by rewrite app_nil_r.
  - by rewrite IH, transactions_step_spec, <- app_assoc.
Qed.

Lemma extract_transactions_spec (doc : document) :
  extract_transactions doc = concat (statement_records <$> doc).
Proof. apply (foldl_transactions_step []). Qed.

Lemma extract_transactions_length (doc : document) :
  length (extract_transactions doc) = transaction_count doc.
Proof.
  rewrite extract_transactions_spec. unfold transaction_count.
  induction doc as [|st doc IH]; cbn [fmap list_fmap concat sum_list]; [done|].
  rewrite length_app, IH. unfold statement_records.
  by rewrite length_fmap.
Qed.

Section loading.
Context {collab : Collaborators}.

Lemma statements_spec c w doc :
  loads c w doc →
  QFXConverter.statements (c, w) = (inr doc, loaded c w doc).
Proof.
  unfold loads, loaded, QFXConverter.statements.
  intros [[Hp Hd]|[Hp (f & Hf & Hdoc)]].
  - unfold bind, get_self; cbn. rewrite Hp. cbn. by rewrite Hd.
  - unfold bind, get_self, QFXConverter.parse, bind, get_self, get_world; cbn.
    rewrite Hp. cbn. rewrite Hf. cbn. by rewrite Hdoc.
Qed.

Lemma _extract_transactions_spec c w doc :
  loads c w doc →
  QFXConverter._extract_transactions (c, w)
    = (inr (extract_transactions doc), loaded c w doc).
Proof.
  intros H. unfold QFXConverter._extract_transactions, bind.
  by rewrite (statements_spec c w doc H).
Qed.

Lemma _extract_positions_spec c w doc :
  loads c w doc →
  QFXConverter._extract_positions (c, w)
    = (inr (extract_positions doc), loaded c w doc).
Proof.
  intros H. unfold QFXConverter._extract_positions, bind.
  by rewrite (statements_spec c w doc H).
Qed.

Lemma loads_loaded c w doc :
  loads c w doc → loads (loaded c w doc).1 (loaded c w doc).2 doc.
Proof.
  unfold loads, loaded. intros [[Hp Hd]|[Hp _]]; rewrite Hp; left; eauto.
Qed.

Lemma loaded_parsed c w doc :
  loads c w doc → _parsed (loaded c w doc).1 = true.
Proof.
  unfold loads, loaded. by intros [[Hp Hd]|[Hp _]]; rewrite Hp.
Qed.

Lemma loaded_fs c w doc : fs (loaded c w doc).2 = fs w.
Proof. unfold loaded. by destruct (_parsed c). Qed.
End loading.


(** ** Running the methods *)

Ltac run :=
  unfold bind, ret, raise, get_self, set_self, get_world, emit, store; cbn.

Section running.
Context {collab : Collaborators}.

Lemma statements_inv c w doc st :
  QFXConverter.statements (c, w) = (inr doc, st) → loads c w doc.
Proof.
  unfold loads, QFXConverter.statements, QFXConverter.parse. run.
  destruct (_parsed c) eqn:Hp; cbn.
  - destruct (ofx_data c) eqn:Hd; cbn; intros ?; simplify_eq. left. done.
  - destruct (fs w !! input_file c) as [f|] eqn:Hf; cbn;
      [|intros ?; simplify_eq].
    destruct (ofx_parse f) as [e|doc'] eqn:Hdoc; cbn; intros ?; simplify_eq.
    right. eauto.
Qed.

Lemma loaded_holds c w doc :
  loads c w doc →
  _parsed (loaded c w doc).1 = true ∧ ofx_data (loaded c w doc).1 = Some doc.
Proof.
  unfold loads, loaded. by intros [[Hp Hd]|[Hp _]]; rewrite Hp.
Qed.

Lemma _extract_positions_parsed c w doc :
  _parsed c = true → ofx_data c = Some doc →
  QFXConverter._extract_positions (c, w)
    = (inr (extract_positions doc), (c, w)).
Proof.
  intros Hp Hd.
  rewrite (_extract_positions_spec c w doc) by (left; done).
  unfold loaded. by rewrite Hp.
Qed.

Lemma write_csv_spec path rows c w :
  QFXConverter.write_csv path rows (c, w) =
    match write_failure path with
    | Some f => (inl (failure_exn f), (c, w))
    | None => (inr (), (c, written w path (csv_file rows)))
    end.
Proof.
  unfold QFXConverter.write_csv, open_write, written, csv_file.
  destruct (write_failure path); run; [done|].
  by rewrite insert_insert_eq.
Qed.

(** [to_csv] on a converter that loads [doc]: what it returns or raises, and
    the world it leaves. When the positions file cannot be opened the
    transactions file is already written. *)
Lemma to_csv_spec c w doc output_file :
  loads c w doc →
  QFXConverter.to_csv output_file (c, w) =
    let path := target c output_file ".csv" in
    let positions_file := with_suffix path ".positions.csv" in
    match extract_transactions doc with
    | [] => (inl no_transactions, loaded c w doc)
    | trx :: rest =>
        match write_failure path with
        | Some f => (inl (failure_exn f), loaded c w doc)
        | None =>
            let c1 := (loaded c w doc).1 in
            let w2 :=
              written (loaded c w doc).2 path (csv_file (trx :: rest)) in
            match extract_positions doc with
            | [] => (inr path, (c1, w2))
            | pos :: more =>
                match write_failure positions_file with
                | Some f => (inl (failure_exn f), (c1, w2))
                | None =>
                    (inr path,
                     (c1, written w2 positions_file (csv_file (pos :: more))))
                end
            end
        end
    end.
Proof.
  intros Hl. unfold QFXConverter.to_csv, QFXConverter.or_default.
  cbn zeta.
  unfold bind at 1 2. unfold get_self at 1. cbn [fst snd ret].
  unfold bind at 1. rewrite (_extract_transactions_spec c w doc Hl).
  destruct (loaded_holds c w doc Hl) as [Hp Hd].
  destruct (loaded c w doc) as [c1 w1]; cbn [fst snd] in *.
  fold (target c output_file ".csv").
  destruct (extract_transactions doc) as [|trx rest]; [done|].
  unfold bind at 1. rewrite write_csv_spec.
  destruct (write_failure (target c output_file ".csv")); [done|].
  unfold bind at 1.
  rewrite (_extract_positions_parsed c1 _ doc Hp Hd).
  destruct (extract_positions doc) as [|pos more]; [done|].
  unfold bind at 1. rewrite write_csv_spec.
  by destruct (write_failure _).
Qed.


(** When [to_csv] returns, it leaves [csv_world]. *)
Lemma to_csv_returns c w doc output_file path st :
  loads c w doc →
  QFXConverter.to_csv output_file (c, w) = (inr path, st) →
  extract_transactions doc ≠ [] ∧
  path = target c output_file ".csv" ∧
  st = ((loaded c w doc).1, csv_world (loaded c w doc).2 path doc).
Proof.
  intros Hl. rewrite (to_csv_spec c w doc output_file Hl).
  cbn zeta. unfold csv_world.
  destruct (extract_transactions doc) as [|trx rest]; [discriminate|].
  destruct (write_failure (target c output_file ".csv")); [discriminate|].
  destruct (extract_positions doc) as [|pos more].
  - intros H. injection H as <- <-. done.
  - destruct (write_failure _); [discriminate|].
    intros H. injection H as <- <-. done.
Qed.

Lemma _extract_transactions_parsed c w doc :
  _parsed c = true → ofx_data c = Some doc →
  QFXConverter._extract_transactions (c, w)
    = (inr (extract_transactions doc), (c, w)).
Proof.
  intros Hp Hd.
  rewrite (_extract_transactions_spec c w doc) by (left; done).
  unfold loaded. by rewrite Hp.
Qed.

Lemma write_json_spec path data indent c w :
  QFXConverter.write_json path data indent (c, w) =
    match write_failure path with
    | Some f => (inl (failure_exn f), (c, w))
    | None =>
        if data_encodable data
        then (inr (), (c, written w path (FJson data indent)))
        else (inl (TypeError "Object is not JSON serializable"),
              (c, written w path FTruncated))
    end.
Proof.
  unfold QFXConverter.write_json, open_write, written.
  destruct (write_failure path); [done|].
  unfold bind at 1. unfold bind, emit, store at 1. cbn [fst snd].
  destruct (data_encodable data); [|done]. unfold store. cbn.
  by rewrite insert_insert_eq.
Qed.

(** [to_json] on a converter that loads [doc]: what it returns or raises,
    and the world it leaves. *)
Lemma to_json_spec c w doc output_file indent :
  loads c w doc →
  QFXConverter.to_json output_file indent (c, w) =
    match extract_transactions doc with
    | [] => (inl no_transactions, loaded c w doc)
    | _ :: _ =>
        let path := target c output_file ".json" in
        match write_failure path with
        | Some f => (inl (failure_exn f), loaded c w doc)
        | None =>
            if data_encodable (json_data doc)
            then (inr path,
                  ((loaded c w doc).1,
                   written (loaded c w doc).2 path
                     (FJson (json_data doc) (json_indent indent))))
            else (inl (TypeError "Object is not JSON serializable"),
                  ((loaded c w doc).1,
                   written (loaded c w doc).2 path FTruncated))
        end
    end.
Proof.
  intros Hl. unfold QFXConverter.to_json, QFXConverter.or_default, json_data.
  unfold bind at 1 2. unfold get_self at 1. cbn [fst snd ret].
  unfold bind at 1. rewrite (_extract_transactions_spec c w doc Hl).
  destruct (loaded_holds c w doc Hl) as [Hp Hd].
  destruct (loaded c w doc) as [c1 w1]; cbn [fst snd] in *.
  fold (target c output_file ".json").
  destruct (extract_transactions doc) as [|trx rest]; [done|].
  unfold bind at 1.
  rewrite (_extract_positions_parsed c1 _ doc Hp Hd).
  cbn zeta. unfold bind at 1. rewrite write_json_spec.
  destruct (write_failure (target c output_file ".json")); [done|].
  destruct (extract_positions doc) as [|pos more];
    by destruct (data_encodable _).
Qed.
End running.


(** ** C3: no transactions, no output *)

Lemma loaded_log_opened c w doc :
  opened_for_writing (loaded c w doc).2 → opened_for_writing w.
Proof.
  unfold loaded, opened_for_writing. destruct (_parsed c); [done|]. cbn.
  intros [path H]. exists path.
  apply elem_of_app in H as [H|H]; [done|].
  apply list_elem_of_singleton in H. discriminate H.
Qed.

(** C3: when the aggregation of the parsed document yields no transaction
    record, [to_csv] and [to_json] raise the no-transactions error, the files
    of the world are those it had before, and no file was opened for
    writing. The test is on the whole aggregated sequence: the error is
    raised in that case only, whatever the statements one by one hold. *)
Theorem C3_no_transactions {collab : Collaborators}
    (c : converter) (w : world) (doc : document)
    (output_file : option string) (indent : Z) :
  loads c w doc →
  let csv := QFXConverter.to_csv output_file (c, w) in
  let json := QFXConverter.to_json output_file indent (c, w) in
  (csv.1 = inl no_transactions ↔ extract_transactions doc = []) ∧
  (json.1 = inl no_transactions ↔ extract_transactions doc = []) ∧
  (extract_transactions doc = [] →
     fs csv.2.2 = fs w ∧ fs json.2.2 = fs w ∧
     (opened_for_writing csv.2.2 → opened_for_writing w) ∧
     (opened_for_writing json.2.2 → opened_for_writing w)).
Proof.
  intros Hl. cbn zeta.
  rewrite (to_csv_spec c w doc output_file Hl).
  rewrite (to_json_spec c w doc output_file indent Hl).
  cbn zeta.
  destruct (extract_transactions doc) as [|trx rest].
  - repeat split; try done; cbn [fst snd];
      try apply loaded_fs; apply loaded_log_opened.
  - repeat split; try done.
    + destruct (write_failure (target c output_file ".csv")) as [[]|];
        [done..|].
      destruct (extract_positions doc); [by cbn|].
      by destruct (write_failure _) as [[]|]; cbn.
    + destruct (write_failure (target c output_file ".json")) as [[]|];
        [done..|].
      by destruct (data_encodable (json_data doc)); cbn.
Qed.

Lemma C3_no_transactions_witness :
  let collab := sample_collaborators empty_doc in
  let csv := QFXConverter.to_csv None (fresh "statement", sample_world) in
  csv.1 = inl no_transactions ∧ fs csv.2.2 = fs sample_world.
Proof.
  cbn zeta.
  assert (loads (collab := sample_collaborators empty_doc)
            (fresh "statement") sample_world empty_doc) as Hl.
  { right. split; [reflexivity|].
    exists (FBytes "OFXHEADER:100"). split; reflexivity. }
  destruct (C3_no_transactions (collab := sample_collaborators empty_doc)
              (fresh "statement") sample_world empty_doc None 2 Hl)
    as (Hcsv & _ & Hfs).
  split; [apply Hcsv; reflexivity|apply Hfs; reflexivity].
Defined.

(** ** C9: a missing input file *)

(** C9: when the input path does not exist, constructing the converter
    raises the not-found error, and so does [convert_qfx] for every format;
    the world is left as it was, so the parser was not invoked (no parse
    event is added to the log) and nothing was written. *)
Theorem C9_missing_input_file {collab : Collaborators}
    (input_file output_format : string) (output_file : option string)
    (w : world) :
  fs w !! input_file = None →
  let not_found :=
    FileNotFoundError ("Input file not found: " +:+ input_file) in
  QFXConverter.__init__ input_file w = (inl not_found, w) ∧
  convert_qfx input_file output_format output_file w = (inl not_found, w) ∧
  (parser_invoked (convert_qfx input_file output_format output_file w).2 →
   parser_invoked w).
Proof.
  intros Hf. cbn zeta.
  assert (QFXConverter.__init__ input_file w
          = (inl (FileNotFoundError ("Input file not found: " +:+ input_file)),
             w)) as Hinit.
  { unfold QFXConverter.__init__, exists_.
    rewrite bool_decide_eq_false_2; [done|].
    rewrite Hf. by intros [? ?]. }
  assert (convert_qfx input_file output_format output_file w
          = (inl (FileNotFoundError ("Input file not found: " +:+ input_file)),
             w)) as Hconv.
  { unfold convert_qfx. by rewrite Hinit. }
  split; [done|]. split; [done|]. by rewrite Hconv.
Qed.

Lemma C9_missing_input_file_witness :
  fs sample_world !! "missing" = None ∧
  convert_qfx (collab := sample_collaborators sample_doc)
    "missing" "csv" None sample_world
  = (inl (FileNotFoundError "Input file not found: missing"),
     sample_world).
Proof.
  split; [reflexivity|].
  apply (C9_missing_input_file (collab := sample_collaborators sample_doc)
           "missing" "csv" None sample_world).
  reflexivity.
Defined.

(** ** C10: the format selector of [convert_qfx] *)

Section format.
Context {collab : Collaborators}.

(** [convert_qfx] on an existing input runs the selected method on a fresh
    converter object. *)
Lemma convert_qfx_existing input_file output_format output_file w :
  is_Some (fs w !! input_file) →
  convert_qfx input_file output_format output_file w =
    let m :=
      if decide (lower output_format = "csv")
      then QFXConverter.to_csv output_file
      else if decide (lower output_format = "json")
      then QFXConverter.to_json output_file 2
      else raise (unsupported_format output_format) in
    ((m (fresh input_file, w)).1, (m (fresh input_file, w)).2.2).
Proof.
  intros Hf. unfold convert_qfx, QFXConverter.__init__, exists_.
  rewrite bool_decide_eq_true_2 by done. cbn zeta.
  fold (fresh input_file). fold (unsupported_format output_format).
  by destruct (_ (fresh input_file, w)) as [r [c' w']].
Qed.

(** What a fresh converter raises before any record is extracted. *)
Lemma fresh_statements input_file w f :
  fs w !! input_file = Some f →
  match ofx_parse f with
  | inl e =>
      QFXConverter.statements (fresh input_file, w)
      = (inl (ValueError ("Failed to parse OFX file: " +:+ e)),
         (fresh input_file,
          mk_world (fs w) (log w ++ [EvParse input_file])))
  | inr doc => loads (fresh input_file) w doc
  end.
Proof.
  intros Hf. destruct (ofx_parse f) as [e|doc] eqn:Hp.
  - unfold QFXConverter.statements, QFXConverter.parse. run.
    rewrite Hf. cbn. by rewrite Hp.
  - right. split; [done|]. eauto.
Qed.

Lemma to_csv_not_unsupported input_file w output_file output_format :
  is_Some (fs w !! input_file) →
  (QFXConverter.to_csv output_file (fresh input_file, w)).1
    ≠ inl (unsupported_format output_format).
Proof.
  intros [f Hf]. pose proof (fresh_statements input_file w f Hf) as H.
  destruct (ofx_parse f) as [e|doc].
  - unfold QFXConverter.to_csv, QFXConverter.or_default,
      QFXConverter._extract_transactions.
    unfold bind at 1 2. unfold get_self at 1. cbn [fst snd ret].
    unfold bind at 1 2. rewrite H. cbn. discriminate.
  - rewrite (to_csv_spec _ _ doc output_file H). cbn zeta.
    destruct (extract_transactions doc); [cbn; discriminate|].
    destruct (write_failure (target _ output_file ".csv")) as [[]|];
      [cbn; discriminate..|].
    destruct (extract_positions doc); [cbn; discriminate|].
    destruct (write_failure _) as [[]|]; cbn; discriminate.
Qed.

Lemma to_json_not_unsupported input_file w output_file indent output_format :
  is_Some (fs w !! input_file) →
  (QFXConverter.to_json output_file indent (fresh input_file, w)).1
    ≠ inl (unsupported_format output_format).
Proof.
  intros [f Hf]. pose proof (fresh_statements input_file w f Hf) as H.
  destruct (ofx_parse f) as [e|doc].
  - unfold QFXConverter.to_json, QFXConverter.or_default,
      QFXConverter._extract_transactions.
    unfold bind at 1 2. unfold get_self at 1. cbn [fst snd ret].
    unfold bind at 1 2. rewrite H. cbn. discriminate.
  - rewrite (to_json_spec _ _ doc output_file indent H).
    destruct (extract_transactions doc); cbn; [discriminate|].
    destruct (write_failure (target _ output_file ".json")) as [[]|];
      [cbn; discriminate..|].
    destruct (data_encodable (json_data doc)); cbn; discriminate.
Qed.
End format.

(** C10, refuted as stated: for a missing input file and the format ["xml"],
    whose lower-cased form is neither ["csv"] nor ["json"], [convert_qfx]
    raises the not-found error and not the unsupported-format error. *)
Lemma C10_counterexample :
  let result :=
    convert_qfx (collab := sample_collaborators sample_doc)
      "missing" "xml" None sample_world in
  lower "xml" ≠ "csv" ∧ lower "xml" ≠ "json" ∧
  result.1 = inl (FileNotFoundError "Input file not found: missing") ∧
  result.1 ≠ inl (unsupported_format "xml").
Proof. cbn zeta. repeat split; vm_compute; congruence. Qed.

(** C10, amended: for an input file that exists, [convert_qfx] selects the
    format by the lower-cased selector, runs [to_csv] for ["csv"] and
    [to_json] (indent 2) for ["json"] in any letter case, and raises the
    unsupported-format error if and only if the lower-cased selector is
    neither ["csv"] nor ["json"]. (For a missing input file the not-found
    error is raised before the selector is looked at.) *)
Theorem C10_format_selector {collab : Collaborators}
    (input_file output_format : string) (output_file : option string)
    (w : world) :
  is_Some (fs w !! input_file) →
  let result := convert_qfx input_file output_format output_file w in
  (result.1 = inl (unsupported_format output_format) ↔
   lower output_format ≠ "csv" ∧ lower output_format ≠ "json") ∧
  (lower output_format = "csv" →
   result.1 = (QFXConverter.to_csv output_file (fresh input_file, w)).1) ∧
  (lower output_format = "json" →
   result.1 = (QFXConverter.to_json output_file 2 (fresh input_file, w)).1) ∧
  lower "CSV" = "csv" ∧ lower "Csv" = "csv" ∧ lower "JSON" = "json".
Proof.
  intros Hf. cbn zeta.
  rewrite (convert_qfx_existing _ _ _ _ Hf). cbn zeta. cbn [fst snd].
  split; [|split; [|split; [|done]]].
  - destruct (decide (lower output_format = "csv")) as [Hc|Hc].
    + split; [|tauto]. intros H.
      by apply to_csv_not_unsupported in H.
    + destruct (decide (lower output_format = "json")) as [Hj|Hj].
      * split; [|tauto]. intros H.
        by apply to_json_not_unsupported in H.
      * done.
  - intros Hc. by rewrite decide_True by done.
  - intros Hj. destruct (decide (lower output_format = "csv")) as [Hc|Hc].
    + rewrite Hj in Hc. discriminate Hc.
    + by rewrite decide_True by done.
Qed.

Lemma C10_format_selector_witness :
  let collab := sample_collaborators sample_doc in
  is_Some (fs sample_world !! "statement") ∧
  (convert_qfx "statement" "XML" None sample_world).1
    = inl (unsupported_format "XML").
Proof.
  cbn zeta. split; [by eexists|].
  apply (C10_format_selector (collab := sample_collaborators sample_doc)
           "statement" "XML" None sample_world); [by eexists|].
  split; vm_compute; congruence.
Defined.

(** ** C8: the JSON document *)

Section json.
Context {collab : Collaborators}.

Lemma to_json_success_loads c w output_file indent path st :
  QFXConverter.to_json output_file indent (c, w) = (inr path, st) →
  ∃ doc, loads c w doc.
Proof.
  unfold QFXConverter.to_json, QFXConverter.or_default,
    QFXConverter._extract_transactions.
  unfold bind at 1 2. unfold get_self at 1. cbn [fst snd ret].
  unfold bind at 1 2.
  destruct (QFXConverter.statements (c, w)) as [[e|doc] st1] eqn:Hs.
  - intros H. discriminate H.
  - intros _. exists doc. by apply statements_inv in Hs.
Qed.

Lemma json_data_transactions doc :
  json_data doc !! "transactions" = Some (extract_transactions doc).
Proof.
  unfold json_data. destruct (extract_positions doc); cbn zeta.
  - apply lookup_singleton_eq.
  - rewrite lookup_insert_ne by done. apply lookup_singleton_eq.
Qed.

Lemma json_data_positions doc :
  json_data doc !! "positions" =
    match extract_positions doc with
    | [] => None
    | pos :: more => Some (pos :: more)
    end.
Proof.
  unfold json_data. destruct (extract_positions doc); cbn zeta.
  - by apply lookup_singleton_ne.
  - apply lookup_insert_eq.
Qed.
End json.

(** C8: when [to_json] returns, the file at the returned path holds the
    dumped object; its key [transactions] is bound to the whole sequence of
    transaction records, which is not empty; it has a key [positions] if and
    only if at least one position record was extracted, bound to the
    sequence of position records; and it has no other key. *)
Theorem C8_json_keys {collab : Collaborators}
    (c : converter) (w : world) (output_file : option string) (indent : Z)
    (path : string) (st : converter * world) :
  QFXConverter.to_json output_file indent (c, w) = (inr path, st) →
  ∃ doc data,
    loads c w doc ∧
    fs st.2 !! path = Some (FJson data (json_indent indent)) ∧
    data !! "transactions" = Some (extract_transactions doc) ∧
    extract_transactions doc ≠ [] ∧
    (is_Some (data !! "positions") ↔ extract_positions doc ≠ []) ∧
    (∀ positions, data !! "positions" = Some positions →
                  positions = extract_positions doc) ∧
    (∀ key, is_Some (data !! key) → key = "transactions" ∨ key = "positions").
Proof.
  intros Hrun.
  destruct (to_json_success_loads _ _ _ _ _ _ Hrun) as [doc Hl].
  exists doc, (json_data doc). split; [done|].
  rewrite (to_json_spec c w doc output_file indent Hl) in Hrun.
  destruct (extract_transactions doc) as [|trx rest] eqn:Ht;
    [discriminate Hrun|].
  cbn zeta in Hrun.
  destruct (write_failure (target c output_file ".json"));
    [discriminate Hrun|].
  destruct (data_encodable (json_data doc)); [|discriminate Hrun].
  injection Hrun as <- <-. cbn [snd written fs].
  split; [apply lookup_insert_eq|].
  split; [by rewrite json_data_transactions, Ht|].
  split; [done|].
  rewrite json_data_positions.
  split; [|split].
  - destruct (extract_positions doc) as [|pos more].
    + split; [by intros [? ?]|done].
    + split; [done|eauto].
  - intros positions. destruct (extract_positions doc); congruence.
  - intros key [x Hx]. unfold json_data in Hx.
    destruct (extract_positions doc); cbn zeta in Hx.
    + apply lookup_singleton_Some in Hx as [<- _]. by left.
    + apply lookup_insert_Some in Hx as [[<- _]|[_ Hx]]; [by right|].
      apply lookup_singleton_Some in Hx as [<- _]. by left.
Qed.

Lemma C8_json_keys_witness :
  let collab := sample_collaborators sample_doc in
  let run :=
    QFXConverter.to_json (Some "out") 2 (fresh "statement", sample_world) in
  run.1 = inr "out" ∧
  ∃ doc data,
    loads (fresh "statement") sample_world doc ∧
    fs run.2.2 !! "out" = Some (FJson data (json_indent 2)) ∧
    data !! "transactions" = Some (extract_transactions doc) ∧
    extract_transactions doc ≠ [] ∧
    (is_Some (data !! "positions") ↔ extract_positions doc ≠ []) ∧
    (∀ positions, data !! "positions" = Some positions →
                  positions = extract_positions doc) ∧
    (∀ key, is_Some (data !! key) → key = "transactions" ∨ key = "positions").
Proof.
  cbn zeta. split; [vm_compute; reflexivity|].
  apply (C8_json_keys (collab := sample_collaborators sample_doc)
           (fresh "statement") sample_world (Some "out") 2 "out").
  vm_compute. reflexivity.
Defined.

(** ** C5: the layout of the CSV file *)

Section csv.
Context {collab : Collaborators}.

Lemma to_csv_success_loads c w output_file path st :
  QFXConverter.to_csv output_file (c, w) = (inr path, st) →
  ∃ doc, loads c w doc.
Proof.
  unfold QFXConverter.to_csv, QFXConverter.or_default,
    QFXConverter._extract_transactions.
  unfold bind at 1 2. unfold get_self at 1. cbn [fst snd ret].
  unfold bind at 1 2.
  destruct (QFXConverter.statements (c, w)) as [[e|doc] st1] eqn:Hs.
  - intros H. discriminate H.
  - intros _. exists doc. by apply statements_inv in Hs.
Qed.

Lemma elem_of_key_union (rows : list record) (keys : gset string) k :
  k ∈ foldl (λ (fieldnames : gset string) (trx : record),
               fieldnames ∪ dom trx) keys rows
  ↔ k ∈ keys ∨ ∃ r, r ∈ rows ∧ is_Some (r !! k).
Proof.
  revert keys. induction rows as [|r rows IH]; intros keys; cbn [foldl].
  - split; [by left|]. intros [H|(r & H & _)]; [done|].
    by apply elem_of_nil in H.
  - rewrite IH, elem_of_union, elem_of_dom. split.
    + intros [[H|H]|(r' & Hr' & H)].
      * by left.
      * right. exists r. split; [apply list_elem_of_here|done].
      * right. exists r'. split; [by apply list_elem_of_further|done].
    + intros [H|(r' & Hr' & H)]; [by left; left|].
      apply elem_of_cons in Hr' as [->|Hr']; [by left; right|].
      right. eauto.
Qed.

Lemma elem_of_fieldnames (rows : list record) k :
  k ∈ QFXConverter.fieldnames rows ↔ ∃ r, r ∈ rows ∧ is_Some (r !! k).
Proof.
  unfold QFXConverter.fieldnames.
  rewrite merge_sort_Permutation, elem_of_elements, elem_of_key_union.
  split; [|by right]. intros [H|H]; [|done]. by apply elem_of_empty in H.
Qed.

Lemma fieldnames_sorted (rows : list record) :
  StronglySorted String.le (QFXConverter.fieldnames rows).
Proof. apply (StronglySorted_merge_sort _). Qed.

Lemma fieldnames_NoDup (rows : list record) :
  NoDup (QFXConverter.fieldnames rows).
Proof.
  unfold QFXConverter.fieldnames.
  rewrite merge_sort_Permutation. apply NoDup_elements.
Qed.

Lemma csv_row_lookup (header : list string) (r : record) j k :
  header !! j = Some k →
  QFXConverter.csv_row header r !! j = Some (QFXConverter.csv_field (r !! k)).
Proof.
  intros H. unfold QFXConverter.csv_row. by rewrite list_lookup_fmap, H.
Qed.

(** The transactions file is still there after the positions file is
    written. *)
Lemma csv_world_lookup w1 path doc :
  fs (csv_world w1 path doc) !! path
    = Some (csv_file (extract_transactions doc)).
Proof.
  unfold csv_world. cbn zeta.
  destruct (extract_positions doc) as [|pos more]; cbn [written fs].
  - apply lookup_insert_eq.
  - rewrite lookup_insert_ne by apply with_suffix_positions.
    apply lookup_insert_eq.
Qed.
End csv.

(** C5, refuted as stated: the only record of a credit-card statement
    declares the field [account_type] (with the empty string the account
    context falls back to), and the cell of that field in its row is empty. *)
Lemma C5_counterexample :
  let collab := sample_collaborators card_doc in
  let run :=
    QFXConverter.to_csv (Some "out") (fresh "statement", sample_world) in
  ∃ record header row,
    run.1 = inr "out" ∧
    extract_transactions card_doc = [record] ∧
    fs run.2.2 !! "out" = Some (FCsv header [row]) ∧
    is_Some (record !! "account_type") ∧
    header !! 1%nat = Some "account_type" ∧
    row !! 1%nat = Some "".
Proof.
  cbn zeta. eexists _, _, _.
  split; [vm_compute; reflexivity|].
  split; [vm_compute; reflexivity|].
  split; [vm_compute; reflexivity|].
  split; [by eexists|]. split; reflexivity.
Qed.

(** C5, amended: the header row of the CSV file is the sorted union of the
    field names of all the records, each name once; the file has one row per
    record, in order, with one cell per header name; the cell of a field the
    record declares is the text of its value (the string itself, [str] of
    any other value, the empty cell for [None]), so it is empty when the
    value is the empty string; the cell of a field the record does not
    declare is empty. *)
Theorem C5_csv_layout {collab : Collaborators}
    (c : converter) (w : world) (output_file : option string)
    (path : string) (st : converter * world) :
  QFXConverter.to_csv output_file (c, w) = (inr path, st) →
  ∃ doc header rows,
    loads c w doc ∧
    extract_transactions doc ≠ [] ∧
    fs st.2 !! path = Some (FCsv header rows) ∧
    StronglySorted String.le header ∧ NoDup header ∧
    (∀ k, k ∈ header ↔
          ∃ r, r ∈ extract_transactions doc ∧ is_Some (r !! k)) ∧
    length rows = length (extract_transactions doc) ∧
    (∀ i r, extract_transactions doc !! i = Some r →
       ∃ row, rows !! i = Some row ∧ length row = length header ∧
         ∀ j k, header !! j = Some k →
           ∃ cell, row !! j = Some cell ∧
             match r !! k with
             | None | Some VNone => cell = ""
             | Some (VStr s) => cell = s
             | Some v => cell = py_str v
             end).
Proof.
  intros Hrun.
  destruct (to_csv_success_loads _ _ _ _ _ Hrun) as [doc Hl].
  exists doc, (QFXConverter.fieldnames (extract_transactions doc)),
    (QFXConverter.csv_row (QFXConverter.fieldnames (extract_transactions doc))
       <$> extract_transactions doc).
  destruct (to_csv_returns c w doc output_file path st Hl Hrun)
    as (Hne & _ & ->).
  destruct (extract_transactions doc) as [|trx rest] eqn:Ht; [done|].
  cbn [snd].
  split; [done|]. split; [done|].
  split; [by rewrite csv_world_lookup, Ht|].
  split; [apply fieldnames_sorted|].
  split; [apply fieldnames_NoDup|].
  split; [apply elem_of_fieldnames|].
  split; [by rewrite length_fmap|].
  intros i r Hr.
  exists (QFXConverter.csv_row (QFXConverter.fieldnames (trx :: rest)) r).
  split; [by rewrite list_lookup_fmap, Hr|].
  split; [unfold QFXConverter.csv_row; by rewrite length_fmap|].
  intros j k Hk. exists (QFXConverter.csv_field (r !! k)).
  split; [by apply csv_row_lookup|].
  unfold QFXConverter.csv_field. destruct (r !! k) as [[]|]; done.
Qed.

Lemma C5_csv_layout_witness :
  let collab := sample_collaborators sample_doc in
  let run :=
    QFXConverter.to_csv (Some "out") (fresh "statement", sample_world) in
  run.1 = inr "out" ∧
  ∃ doc header rows,
    loads (fresh "statement") sample_world doc ∧
    extract_transactions doc ≠ [] ∧
    fs run.2.2 !! "out" = Some (FCsv header rows) ∧
    StronglySorted String.le header ∧ NoDup header ∧
    (∀ k, k ∈ header ↔
          ∃ r, r ∈ extract_transactions doc ∧ is_Some (r !! k)) ∧
    length rows = length (extract_transactions doc) ∧
    (∀ i r, extract_transactions doc !! i = Some r →
       ∃ row, rows !! i = Some row ∧ length row = length header ∧
         ∀ j k, header !! j = Some k →
           ∃ cell, row !! j = Some cell ∧
             match r !! k with
             | None | Some VNone => cell = ""
             | Some (VStr s) => cell = s
             | Some v => cell = py_str v
             end).
Proof.
  cbn zeta. split; [vm_compute; reflexivity|].
  apply (C5_csv_layout (collab := sample_collaborators sample_doc)
           (fresh "statement") sample_world (Some "out") "out").
  vm_compute. reflexivity.
Defined.

(** ** C7: the ISO-8601 string reads back as the datetime *)

Section isoformat_roundtrip.
Local Open Scope Z_scope.

Lemma append_String c (s t : string) : String c s +:+ t = String c (s +:+ t).
Proof. reflexivity. Qed.

Lemma append_empty_l (t : string) : "" +:+ t = t.
Proof. reflexivity. Qed.

Lemma append_empty_r (s : string) : s +:+ "" = s.
Proof. induction s as [|c s IH]; [done|]. by rewrite append_String, IH. Qed.

Lemma append_assoc (s t u : string) : (s +:+ t) +:+ u = s +:+ (t +:+ u).
Proof.
  induction s as [|c s IH]; [done|]. by rewrite !append_String, IH.
Qed.

Lemma digit_val_digit_char n : digit_val (digit_char n) = Some (n mod 10).
Proof.
  unfold digit_val, digit_char.
  assert (0 <= n mod 10 < 10) as Hn by (apply Z.mod_pos_bound; lia).
  rewrite nat_ascii_embedding by lia.
  rewrite Z2Nat.id by lia.
  rewrite (proj2 (Z.leb_le _ _)), (proj2 (Z.leb_le _ _)) by lia.
  cbn. f_equal. lia.
Qed.

(** Reading [w] digits written by [pad]. *)
Lemma take_digits_pad (w : nat) (acc n : Z) (rest : string) :
  take_digits w acc (pad w n +:+ rest)
    = Some (acc * 10 ^ Z.of_nat w + n mod 10 ^ Z.of_nat w, rest).
Proof.
  revert acc. induction w as [|w IH]; intros acc.
  - cbn [take_digits pad]. rewrite append_empty_l.
    change (10 ^ Z.of_nat 0) with 1. rewrite Z.mod_1_r. do 2 f_equal. lia.
  - cbn [take_digits pad]. rewrite append_String, digit_val_digit_char.
    cbn [mbind option_bind]. rewrite IH. do 2 f_equal.
    rewrite Nat2Z.inj_succ, Z.pow_succ_r by lia.
    rewrite (Z.mul_comm 10 (10 ^ Z.of_nat w)).
    rewrite (Z.rem_mul_r n (10 ^ Z.of_nat w) 10) by lia.
    lia.
Qed.

Lemma take_digits_pad_small (w : nat) (n : Z) (rest : string) :
  0 <= n < 10 ^ Z.of_nat w →
  take_digits w 0 (pad w n +:+ rest) = Some (n, rest).
Proof.
  intros Hn. rewrite take_digits_pad, Z.mod_small by done. done.
Qed.

Lemma take_fraction_fraction us rest :
  0 <= us < 1000000 → after_fraction rest →
  take_fraction (fraction us +:+ rest) = Some (us, rest).
Proof.
  intros Hus Hrest. unfold fraction.
  destruct (Z.eqb_spec us 0) as [->|Hne].
  - rewrite append_empty_l.
    destruct rest as [|c rest]; [done|].
    destruct Hrest as [->| ->]; done.
  - rewrite append_assoc.
    change ("." +:+ (pad 6 us +:+ rest))
      with (String "." (pad 6 us +:+ rest)).
    cbn [take_fraction]. by apply take_digits_pad_small.
Qed.

Lemma take_offset_seconds_spec ss us :
  0 <= ss < 60 → 0 <= us < 1000000 →
  take_offset_seconds
    (if (ss =? 0) && (us =? 0) then "" else ":" +:+ pad 2 ss +:+ fraction us)
  = Some (ss, us, "").
Proof.
  intros Hss Hus.
  destruct (Z.eqb_spec ss 0) as [->|Hs]; cbn [andb].
  - destruct (Z.eqb_spec us 0) as [->|Hu]; [done|].
    change (":" +:+ pad 2 0 +:+ fraction us)
      with (String ":" (pad 2 0 +:+ fraction us)).
    cbn [take_offset_seconds].
    rewrite take_digits_pad_small by (cbn; lia). cbn [mbind option_bind].
    rewrite <- (append_empty_r (fraction us)).
    by rewrite take_fraction_fraction.
  - change (":" +:+ pad 2 ss +:+ fraction us)
      with (String ":" (pad 2 ss +:+ fraction us)).
    cbn [take_offset_seconds].
    rewrite take_digits_pad_small by (cbn; lia). cbn [mbind option_bind].
    rewrite <- (append_empty_r (fraction us)).
    by rewrite take_fraction_fraction.
Qed.

Lemma take_offset_format_offset (off : option Z) :
  match off with
  | Some o => - 86400000000 < o < 86400000000
  | None => True
  end →
  take_offset (format_offset off) = Some off.
Proof.
  destruct off as [o|]; [|done]. intros Ho.
  unfold format_offset. cbn zeta.
  set (a := Z.abs o).
  assert (0 <= a < 86400000000) as Ha by (unfold a; lia).
  set (hh := a / 3600000000).
  set (mm := a mod 3600000000 / 60000000).
  set (ss := a mod 60000000 / 1000000).
  set (us := a mod 1000000).
  assert (0 <= hh < 24) by (unfold hh; Z.to_euclidean_division_equations; lia).
  assert (0 <= mm < 60) by (unfold mm; Z.to_euclidean_division_equations; lia).
  assert (0 <= ss < 60) by (unfold ss; Z.to_euclidean_division_equations; lia).
  assert (0 <= us < 1000000)
    by (unfold us; Z.to_euclidean_division_equations; lia).
  assert (((hh * 60 + mm) * 60 + ss) * 1000000 + us = a) as Hsum
    by (unfold hh, mm, ss, us; Z.to_euclidean_division_equations; lia).
  destruct (Z.ltb_spec o 0) as [Hneg|Hpos].
  - change ("-" +:+ pad 2 hh +:+ ":" +:+ pad 2 mm +:+ ?t)
      with (String "-" (pad 2 hh +:+ ":" +:+ pad 2 mm +:+ t)).
    cbn [take_offset]. rewrite decide_False by done.
    rewrite decide_True by done. cbn [mbind option_bind].
    rewrite take_digits_pad_small by (cbn; lia). cbn [mbind option_bind].
    change (":" +:+ pad 2 mm +:+ ?t) with (String ":" (pad 2 mm +:+ t)).
    cbn [expect]. rewrite decide_True by done. cbn [mbind option_bind].
    rewrite take_digits_pad_small by (cbn; lia). cbn [mbind option_bind].
    rewrite take_offset_seconds_spec by done. cbn [mbind option_bind].
    do 2 f_equal. rewrite Hsum. unfold a. lia.
  - change ("+" +:+ pad 2 hh +:+ ":" +:+ pad 2 mm +:+ ?t)
      with (String "+" (pad 2 hh +:+ ":" +:+ pad 2 mm +:+ t)).
    cbn [take_offset]. rewrite decide_True by done.
    cbn [mbind option_bind].
    rewrite take_digits_pad_small by (cbn; lia). cbn [mbind option_bind].
    change (":" +:+ pad 2 mm +:+ ?t) with (String ":" (pad 2 mm +:+ t)).
    cbn [expect]. rewrite decide_True by done. cbn [mbind option_bind].
    rewrite take_digits_pad_small by (cbn; lia). cbn [mbind option_bind].
    rewrite take_offset_seconds_spec by done. cbn [mbind option_bind].
    do 2 f_equal. rewrite Hsum. unfold a. lia.
Qed.
End isoformat_roundtrip.

Lemma format_offset_after_fraction (off : option Z) :
  after_fraction (format_offset off).
Proof.
  destruct off as [o|]; [|done]. unfold format_offset. cbn zeta.
  destruct (o <? 0)%Z; [by right|by left].
Qed.

Lemma fromisoformat_isoformat (d : datetime) :
  valid d → fromisoformat (isoformat d) = Some d.
Proof.
  destruct d as [y mo dd hh mi ss us off].
  unfold valid. cbn [year month day hour minute second microsecond utcoffset].
  intros (Hy & Hmo & Hd & Hh & Hmi & Hs & Hus & Hoff).
  unfold isoformat, format_time, fromisoformat.
  cbn [year month day hour minute second microsecond utcoffset].
  rewrite !append_assoc.
  rewrite take_digits_pad_small by (cbn; lia). cbn [mbind option_bind].
  change ("-" +:+ ?t) with (String "-" t) at 1.
  cbn [expect]. rewrite decide_True by done. cbn [mbind option_bind].
  rewrite take_digits_pad_small by (cbn; lia). cbn [mbind option_bind].
  change ("-" +:+ ?t) with (String "-" t) at 1.
  cbn [expect]. rewrite decide_True by done. cbn [mbind option_bind].
  rewrite take_digits_pad_small by (cbn; lia). cbn [mbind option_bind].
  change ("T" +:+ ?t) with (String "T" t) at 1.
  cbn [expect]. rewrite decide_True by done. cbn [mbind option_bind].
  rewrite take_digits_pad_small by (cbn; lia). cbn [mbind option_bind].
  change (":" +:+ ?t) with (String ":" t) at 1.
  cbn [expect]. rewrite decide_True by done. cbn [mbind option_bind].
  rewrite take_digits_pad_small by (cbn; lia). cbn [mbind option_bind].
  change (":" +:+ ?t) with (String ":" t) at 1.
  cbn [expect]. rewrite decide_True by done. cbn [mbind option_bind].
  rewrite take_digits_pad_small by (cbn; lia). cbn [mbind option_bind].
  rewrite take_fraction_fraction
    by (done || apply format_offset_after_fraction).
  cbn [mbind option_bind].
  rewrite take_offset_format_offset by done. done.
Qed.

(** C7: a datetime attribute is stored as its ISO-8601 string
    ([isoformat]), in the flat record too when no composite attribute
    derives the same key, and reading that string back gives the datetime
    itself: the same calendar date, time of day and UTC offset. *)
Theorem C7_datetime_round_trip (attr_name : string) (d : datetime) :
  valid d →
  normalize attr_name (VDatetime d) = [(attr_name, VStr (isoformat d))] ∧
  fromisoformat (isoformat d) = Some d ∧
  (∀ (obj : pyobj) (account_info : record),
     getattr obj attr_name = Some (VDatetime d) →
     startswith_underscore attr_name = false →
     underived attr_name →
     ∃ text, _transaction_to_dict obj account_info !! attr_name
               = Some (VStr text) ∧
             fromisoformat text = Some d).
Proof.
  intros Hd. split; [done|]. split; [by apply fromisoformat_isoformat|].
  intros obj account_info Hget Hpub Hk. exists (isoformat d).
  split; [|by apply fromisoformat_isoformat].
  unfold _transaction_to_dict. cbn zeta. rewrite flatten_lookup by done.
  unfold direct_write, skipped. by rewrite Hget, Hpub.
Qed.

Lemma C7_datetime_round_trip_witness :
  valid (utc 2024 1 15 12 0 0) ∧
  isoformat (utc 2024 1 15 12 0 0) = "2024-01-15T12:00:00+00:00" ∧
  fromisoformat (isoformat (utc 2024 1 15 12 0 0))
    = Some (utc 2024 1 15 12 0 0).
Proof.
  assert (valid (utc 2024 1 15 12 0 0)) as Hv by (vm_compute; intuition congruence).
  split; [exact Hv|]. split; [reflexivity|].
  exact (proj1 (proj2 (C7_datetime_round_trip "dtposted"
                         (utc 2024 1 15 12 0 0) Hv))).
Defined.

(** ** C6: Decimal to float *)

Section rounding.
Local Open Scope Z_scope.

Lemma round_half_even_error a b :
  0 < b → 2 * Z.abs (a - round_half_even a b * b) <= b.
Proof.
  intros Hb. unfold round_half_even.
  pose proof (Z.div_mod a b ltac:(lia)) as Hdm.
  pose proof (Z.mod_pos_bound a b Hb) as Hr.
  destruct (Z.compare_spec (2 * (a mod b)) b); [destruct (Z.even _)| |]; nia.
Qed.

Lemma round_half_even_unique a b k :
  0 < b → 2 * Z.abs (a - k * b) < b → round_half_even a b = k.
Proof.
  intros Hb Hk. unfold round_half_even.
  pose proof (Z.div_mod a b ltac:(lia)) as Hdm.
  pose proof (Z.mod_pos_bound a b Hb) as Hr.
  assert (k = a / b ∨ k = a / b + 1) as Hc by nia.
  destruct (Z.compare_spec (2 * (a mod b)) b); [destruct (Z.even _)| |]; nia.
Qed.

Lemma round_half_even_scale a b t :
  0 < b → 0 < t → round_half_even (a * t) (b * t) = round_half_even a b.
Proof.
  intros Hb Ht. unfold round_half_even.
  rewrite Z.div_mul_cancel_r by lia.
  rewrite Z.mul_mod_distr_r by lia.
  replace (2 * (a mod b * t)) with (2 * (a mod b) * t) by lia.
  by rewrite <- Zmult_compare_compat_r by lia.
Qed.

Lemma round_half_even_ratio a b a' b' :
  0 < b → 0 < b' → a * b' = a' * b →
  round_half_even a b = round_half_even a' b'.
Proof.
  intros Hb Hb' H.
  rewrite <- (round_half_even_scale a b b'), <- (round_half_even_scale a' b' b)
    by done.
  by rewrite H, (Z.mul_comm b b').
Qed.
End rounding.

Section values.
Local Open Scope Q_scope.

Lemma pow2_pos (k : Z) : 0 < inject_Z 2 ^ k.
Proof. by apply Qpower_0_lt. Qed.

Lemma pow2_succ (k : Z) : inject_Z 2 ^ (k + 1) == 2 * inject_Z 2 ^ k.
Proof. rewrite Qpower_plus by done. change (inject_Z 2 ^ 1) with 2. ring. Qed.

Lemma pow2_nonneg_inject (k : Z) :
  (0 <= k)%Z → inject_Z (2 ^ k) == inject_Z 2 ^ k.
Proof. apply Zpower_Qpower. Qed.

Lemma inject_Z_pos (b : Z) : (0 < b)%Z → 0 < inject_Z b.
Proof. intros H. change (inject_Z 0 < inject_Z b). by rewrite <- Zlt_Qlt. Qed.

Lemma scale2_ratio (a b k a' b' : Z) :
  (0 < b)%Z → scale2 a b k = (a', b') →
  (0 < b')%Z ∧ ratio a' b' == ratio a b * inject_Z 2 ^ k.
Proof.
  intros Hb. unfold scale2, ratio.
  destruct (Z.leb_spec 0 k) as [Hk|Hk]; intros [= <- <-].
  - split; [done|].
    rewrite inject_Z_mult, pow2_nonneg_inject by done.
    pose proof (inject_Z_pos b Hb). generalize (inject_Z 2 ^ k). intros p.
    field. lra.
  - assert (0 < 2 ^ (- k))%Z by (apply Z.pow_pos_nonneg; lia).
    split; [lia|].
    rewrite inject_Z_mult, pow2_nonneg_inject, Qpower_opp by lia.
    pose proof (inject_Z_pos b Hb). pose proof (pow2_pos k) as Hp.
    revert Hp. generalize (inject_Z 2 ^ k). intros p Hp.
    field. split; lra.
Qed.
End values.

Section log2.
Local Open Scope Q_scope.

Lemma pow2_inverse (k : Z) : inject_Z 2 ^ k * inject_Z 2 ^ (- k) == 1.
Proof.
  rewrite <- Qpower_plus by done. by replace (k + - k)%Z with 0%Z by lia.
Qed.

Lemma pow2_sub (j k : Z) :
  inject_Z 2 ^ (j - k) * inject_Z 2 ^ k == inject_Z 2 ^ j.
Proof.
  rewrite <- Qpower_plus by done. by replace (j - k + k)%Z with j by lia.
Qed.

Lemma log2_bounds (n : Z) :
  (0 < n)%Z →
  inject_Z 2 ^ Z.log2 n <= inject_Z n ∧
  inject_Z n < 2 * inject_Z 2 ^ Z.log2 n.
Proof.
  intros Hn. destruct (Z.log2_spec n Hn) as [Hlo Hhi].
  pose proof (Z.log2_nonneg n) as H0.
  rewrite <- pow2_nonneg_inject by done. split.
  - by rewrite <- Zle_Qle.
  - change 2 with (inject_Z 2). rewrite <- inject_Z_mult, <- Zlt_Qlt.
    rewrite Z.pow_succ_r in Hhi by done. lia.
Qed.

Lemma ratio_spec (a b : Z) :
  (0 < b)%Z → ratio a b * inject_Z b == inject_Z a.
Proof.
  intros Hb. pose proof (inject_Z_pos b Hb). unfold ratio. field. lra.
Qed.

Lemma floor_log2_ratio_spec (n d : Z) :
  (0 < n)%Z → (0 < d)%Z →
  inject_Z 2 ^ floor_log2_ratio n d <= ratio n d ∧
  ratio n d < 2 * inject_Z 2 ^ floor_log2_ratio n d.
Proof.
  intros Hn Hd. unfold floor_log2_ratio.
  destruct (log2_bounds n Hn) as [Hn1 Hn2].
  destruct (log2_bounds d Hd) as [Hd1 Hd2].
  pose proof (pow2_sub (Z.log2 n) (Z.log2 d)) as He0.
  pose proof (pow2_pos (Z.log2 d)) as Hpd.
  set (e0 := (Z.log2 n - Z.log2 d)%Z) in *.
  pose proof (pow2_pos e0) as Hp0.
  pose proof (ratio_spec n d Hd) as Hv.
  pose proof (inject_Z_pos d Hd) as Hdq.
  destruct (scale2 n d (- e0)) as [a b] eqn:Hs.
  destruct (scale2_ratio _ _ _ _ _ Hd Hs) as [Hb Hab].
  pose proof (ratio_spec a b Hb) as Hw.
  pose proof (inject_Z_pos b Hb) as Hbq.
  pose proof (pow2_inverse e0) as Hinv.
  assert (ratio n d == inject_Z 2 ^ e0 * ratio a b) as Hvw.
  { rewrite Hab. transitivity (ratio n d * (inject_Z 2 ^ e0 *
                                            inject_Z 2 ^ (- e0))).
    - rewrite Hinv. ring.
    - ring. }
  clear Hab Hinv Hs.
  revert He0 Hv Hn1 Hn2 Hd1 Hd2 Hpd Hp0 Hdq Hw Hbq Hvw.
  assert (inject_Z 2 ^ (e0 - 1) * 2 == inject_Z 2 ^ e0) as Hhalf.
  { rewrite <- (pow2_sub e0 1). change (inject_Z 2 ^ 1) with 2. ring. }
  pose proof (pow2_pos (e0 - 1)) as Hp1. revert Hhalf Hp1.
  destruct (Z.leb_spec b a) as [Hle|Hlt];
    [rewrite Zle_Qle in Hle; revert Hle|rewrite Zlt_Qlt in Hlt; revert Hlt];
    generalize (ratio a b) (ratio n d) (inject_Z 2 ^ e0)
      (inject_Z 2 ^ Z.log2 n) (inject_Z 2 ^ Z.log2 d)
      (inject_Z n) (inject_Z d) (inject_Z a) (inject_Z b)
      (inject_Z 2 ^ (e0 - 1));
    intros w v T P R N D A B H Hcmp Hhalf Hp1 He0 Hv Hn1 Hn2 Hd1 Hd2 Hpd Hp0
      Hdq Hw Hbq Hvw.
  - assert (1 <= w) as Hw1.
    { apply (Qmult_le_r _ _ B); [done|]. lra. }
    split.
    + rewrite Hvw. rewrite <- (Qmult_1_r T) at 1.
      apply Qmult_le_l; done.
    + apply (Qmult_lt_r _ _ D); [done|]. rewrite Hv.
      assert (T * R <= T * D) by (apply Qmult_le_l; done).
      lra.
  - assert (w < 1) as Hw1.
    { apply (Qmult_lt_r _ _ B); [done|]. lra. }
    split.
    + apply (Qmult_le_r _ _ D); [done|]. rewrite Hv.
      assert (H * D <= H * (2 * R)) by (apply Qmult_le_l; [done|lra]).
      assert (H * (2 * R) == P) by (rewrite <- He0, <- Hhalf; ring).
      lra.
    + assert (T * w < T * 1) by (apply Qmult_lt_l; done).
      lra.
Qed.
End log2.

Section invariance.
Local Open Scope Q_scope.

Lemma pow2_unique (e e' : Z) (v : Q) :
  inject_Z 2 ^ e <= v → v < 2 * inject_Z 2 ^ e →
  inject_Z 2 ^ e' <= v → v < 2 * inject_Z 2 ^ e' →
  e = e'.
Proof.
  assert (∀ e e', inject_Z 2 ^ e' <= v → v < 2 * inject_Z 2 ^ e →
                  (e' <= e)%Z) as Hle.
  { clear. intros e e' Hlo Hhi.
    destruct (Z.le_gt_cases e' e) as [|Hlt]; [done|exfalso].
    assert (inject_Z 2 ^ (e + 1) <= inject_Z 2 ^ e') as Hp
      by (apply Qpower_le_compat_l; [lia|done]).
    rewrite pow2_succ in Hp. lra. }
  intros H1 H2 H3 H4.
  pose proof (Hle e e' H3 H2). pose proof (Hle e' e H1 H4). lia.
Qed.

Lemma ratio_cross (n d n' d' : Z) :
  (0 < d)%Z → (0 < d')%Z → (n * d' = n' * d)%Z → ratio n d == ratio n' d'.
Proof.
  intros Hd Hd' H. unfold ratio.
  pose proof (inject_Z_pos d Hd). pose proof (inject_Z_pos d' Hd').
  apply (f_equal inject_Z) in H. rewrite !inject_Z_mult in H.
  revert H. generalize (inject_Z n) (inject_Z n') . intros N N' H.
  apply (Qmult_inj_r _ _ (inject_Z d * inject_Z d')); [nra|].
  transitivity (N * inject_Z d'); [field; lra|].
  rewrite H. field. lra.
Qed.

Lemma floor_log2_ratio_cross (n d n' d' : Z) :
  (0 < n)%Z → (0 < d)%Z → (0 < n')%Z → (0 < d')%Z →
  (n * d' = n' * d)%Z →
  floor_log2_ratio n d = floor_log2_ratio n' d'.
Proof.
  intros Hn Hd Hn' Hd' H.
  destruct (floor_log2_ratio_spec n d Hn Hd) as [H1 H2].
  destruct (floor_log2_ratio_spec n' d' Hn' Hd') as [H3 H4].
  rewrite <- (ratio_cross n d n' d' Hd Hd' H) in H3, H4.
  by apply (pow2_unique _ _ (ratio n d)).
Qed.
End invariance.

Lemma round_ratio_cross (s : bool) (n d n' d' : Z) :
  (0 < n)%Z → (0 < d)%Z → (0 < n')%Z → (0 < d')%Z →
  (n * d' = n' * d)%Z →
  round_ratio s n d = round_ratio s n' d'.
Proof.
  intros Hn Hd Hn' Hd' H. unfold round_ratio.
  rewrite (floor_log2_ratio_cross n d n' d') by done.
  set (u := Z.max (floor_log2_ratio n' d' - 52) (-1074)).
  assert (round_half_even (scale2 n d (- u)).1 (scale2 n d (- u)).2
          = round_half_even (scale2 n' d' (- u)).1 (scale2 n' d' (- u)).2)
    as Hm.
  { unfold scale2. destruct (Z.leb_spec 0 (- u)) as [Hu|Hu]; cbn [fst snd].
    - apply round_half_even_ratio; [done..|]. nia.
    - assert (0 < 2 ^ (- - u))%Z by (apply Z.pow_pos_nonneg; lia).
      apply round_half_even_ratio; [nia..|]. nia. }
  destruct (scale2 n d (- u)) as [a b], (scale2 n' d' (- u)) as [a' b'].
  cbn [fst snd] in Hm. by rewrite Hm.
Qed.

Section normal_range.
Local Open Scope Q_scope.

Lemma round_half_even_close (a b : Z) :
  (0 < b)%Z →
  Qabs (inject_Z (round_half_even a b) - ratio a b) <= 1 # 2.
Proof.
  intros Hb. pose proof (round_half_even_error a b Hb) as H.
  pose proof (ratio_spec a b Hb) as Hr.
  pose proof (inject_Z_pos b Hb) as Hbq.
  set (m := round_half_even a b) in *.
  assert (2 * (inject_Z m * inject_Z b) <= 2 * inject_Z a + inject_Z b
          ∧ 2 * inject_Z a <= 2 * (inject_Z m * inject_Z b) + inject_Z b)
    as [H1 H2].
  { change 2 with (inject_Z 2).
    rewrite <- !inject_Z_mult, <- !inject_Z_plus, <- !Zle_Qle. lia. }
  apply Qabs_Qle_condition.
  revert Hr H1 H2 Hbq.
  generalize (ratio a b) (inject_Z m) (inject_Z a) (inject_Z b).
  intros r M A B Hr H1 H2 HB. rewrite <- Hr in H1, H2.
  split; apply (Qmult_le_r _ _ B); try done; lra.
Qed.

(** In the normal range the result is finite and within half a unit in
    the last place, [2^(e-52)], of the exact quotient. *)
Lemma round_ratio_normal (s : bool) (n d : Z) :
  (0 < n)%Z → (0 < d)%Z →
  (-1022 <= floor_log2_ratio n d <= 1022)%Z →
  ∃ m u,
    round_ratio s n d = S754_finite s m u ∧
    Qabs (inject_Z (Z.pos m) * inject_Z 2 ^ u - ratio n d) * 2
      <= inject_Z 2 ^ (floor_log2_ratio n d - 52).
Proof.
  intros Hn Hd He.
  destruct (floor_log2_ratio_spec n d Hn Hd) as [Hlo Hhi].
  unfold round_ratio.
  set (e := floor_log2_ratio n d) in *.
  replace (Z.max (e - 52) (-1074)) with (e - 52)%Z by lia.
  destruct (scale2 n d (- (e - 52))) as [a b] eqn:Hs.
  destruct (scale2_ratio _ _ _ _ _ Hd Hs) as [Hb Hab].
  pose proof (round_half_even_close a b Hb) as Hclose.
  pose proof (round_half_even_error a b Hb) as Herr.
  set (M := round_half_even a b) in *.
  (* the scaled quotient lies in [2^52, 2^53) *)
  assert (inject_Z 2 ^ e * inject_Z 2 ^ (- (e - 52)) == inject_Z (2 ^ 52))
    as Hscale.
  { rewrite <- Qpower_plus by done.
    replace (e + - (e - 52))%Z with 52%Z by lia.
    by rewrite pow2_nonneg_inject. }
  pose proof (pow2_pos (- (e - 52))) as Hpos.
  assert (inject_Z (2 ^ 52) <= ratio a b ∧ ratio a b < 2 * inject_Z (2 ^ 52))
    as [Hr1 Hr2].
  { rewrite Hab, <- Hscale. split.
    - apply Qmult_le_r; done.
    - rewrite Qmult_assoc. apply Qmult_lt_r; done. }
  assert (2 ^ 52 * b <= a ∧ a < 2 * 2 ^ 52 * b)%Z as [Ha1 Ha2].
  { pose proof (ratio_spec a b Hb) as Hr.
    pose proof (inject_Z_pos b Hb) as Hbq.
    rewrite Zle_Qle, Zlt_Qlt, !inject_Z_mult, <- Hr.
    change (inject_Z 2) with 2. split.
    - apply Qmult_le_r; done.
    - apply Qmult_lt_r; [done|]. lra. }
  assert (2 ^ 52 <= M <= 2 ^ 53)%Z as HM by nia.
  (* the value of the result is [M * 2^(e-52)] *)
  assert (∃ m u, (if M =? 0 then S754_zero s
                  else let '(m', u') :=
                         if M =? 2 ^ 53 then (2 ^ 52, e - 52 + 1)
                         else (M, e - 52) in
                       if 971 <? u' then S754_infinity s
                       else S754_finite s (Z.to_pos m') u')%Z
                 = S754_finite s m u ∧
                 inject_Z (Z.pos m) * inject_Z 2 ^ u
                 == inject_Z M * inject_Z 2 ^ (e - 52)) as (m & u & -> & Hval).
  { rewrite (proj2 (Z.eqb_neq M 0)) by lia.
    destruct (Z.eqb_spec M (2 ^ 53)) as [HM53|HM53].
    - rewrite (proj2 (Z.ltb_ge 971 (e - 52 + 1))) by lia.
      eexists _, _. split; [done|].
      rewrite pow2_succ, HM53. change (Z.pos (Z.to_pos (2 ^ 52))) with (2 ^ 52)%Z.
      change (inject_Z (2 ^ 53)) with (2 * inject_Z (2 ^ 52)). ring.
    - rewrite (proj2 (Z.ltb_ge 971 (e - 52))) by lia.
      eexists _, _. split; [done|]. by rewrite Z2Pos.id by lia. }
  exists m, u. split; [done|].
  rewrite Hval.
  assert (ratio n d == ratio a b * inject_Z 2 ^ (e - 52)) as ->.
  { rewrite Hab, <- Qmult_assoc.
    rewrite (Qmult_comm (inject_Z 2 ^ (- (e - 52)))), pow2_inverse. ring. }
  pose proof (pow2_pos (e - 52)) as Hp.
  setoid_replace (inject_Z M * inject_Z 2 ^ (e - 52)
                  - ratio a b * inject_Z 2 ^ (e - 52))
    with ((inject_Z M - ratio a b) * inject_Z 2 ^ (e - 52))
    using relation Qeq by ring.
  rewrite Qabs_Qmult, (Qabs_pos (inject_Z 2 ^ (e - 52))) by lra.
  revert Hclose Hp.
  generalize (Qabs (inject_Z M - ratio a b)) (inject_Z 2 ^ (e - 52)).
  intros x p Hx Hp.
  assert (x * p <= (1 # 2) * p) by (apply Qmult_le_r; done). lra.
Qed.
End normal_range.

Section two_places.
Local Open Scope Q_scope.

Lemma float_of_decimal_cents (d : decimal) :
  (-2 <= dec_exp d)%Z → (0 < cents d)%Z →
  float_of_decimal d = round_ratio (dec_sign d) (cents d) 100.
Proof.
  intros He Hc. unfold float_of_decimal, cents in *.
  set (c := Z.of_N (dec_coef d)) in *.
  assert (0 < 10 ^ (dec_exp d + 2))%Z by (apply Z.pow_pos_nonneg; lia).
  assert (0 < c)%Z by nia.
  rewrite (proj2 (Z.eqb_neq c 0)) by lia.
  destruct (Z.leb_spec 0 (dec_exp d)) as [Hpos|Hneg].
  - assert (0 < 10 ^ dec_exp d)%Z by (apply Z.pow_pos_nonneg; lia).
    apply round_ratio_cross; try nia.
    rewrite Z.pow_add_r by lia. change (10 ^ 2)%Z with 100%Z. lia.
  - assert (0 < 10 ^ (- dec_exp d))%Z by (apply Z.pow_pos_nonneg; lia).
    apply round_ratio_cross; try nia.
    rewrite <- Z.mul_assoc, <- Z.pow_add_r by lia.
    by replace (dec_exp d + 2 + - dec_exp d)%Z with 2%Z by lia.
Qed.

Lemma Q_of_decimal_cents (d : decimal) :
  (-2 <= dec_exp d)%Z →
  Q_of_decimal d ==
    if dec_sign d then - ratio (cents d) 100 else ratio (cents d) 100.
Proof.
  intros He. unfold Q_of_decimal, cents, ratio. cbn zeta.
  assert (inject_Z (Z.of_N (dec_coef d)) * inject_Z 10 ^ dec_exp d
          == inject_Z (Z.of_N (dec_coef d) * 10 ^ (dec_exp d + 2))
             / inject_Z 100) as Heq.
  { rewrite inject_Z_mult, Zpower_Qpower by lia.
    replace (dec_exp d + 2)%Z with (2 + dec_exp d)%Z by lia.
    rewrite Qpower_plus by done.
    change (inject_Z 10 ^ 2) with (inject_Z 100). field. }
  destruct (dec_sign d); by rewrite Heq.
Qed.

Lemma cents_exponent (c : Z) :
  (0 < c < 10 ^ 15)%Z → (-7 <= floor_log2_ratio c 100 <= 43)%Z.
Proof.
  intros Hc.
  destruct (floor_log2_ratio_spec c 100 (proj1 Hc) eq_refl) as [Hlo Hhi].
  pose proof (ratio_spec c 100 eq_refl) as Hr.
  assert (1 <= inject_Z c ∧ inject_Z c < inject_Z (10 ^ 15)) as [Hc1 Hc2].
  { change 1 with (inject_Z 1). rewrite <- Zle_Qle, <- Zlt_Qlt. lia. }
  set (e := floor_log2_ratio c 100) in *.
  split.
  - assert (inject_Z 2 ^ (-8) < inject_Z 2 ^ e) as H.
    { change (inject_Z 2 ^ (-8)) with (1 # 256).
      change (inject_Z 100) with 100 in Hr. lra. }
    apply Qpower_lt_compat_l_inv in H; [lia|done].
  - assert (inject_Z 2 ^ e < inject_Z 2 ^ 44) as H.
    { change (inject_Z 2 ^ 44) with (inject_Z (2 ^ 44)).
      change (inject_Z 100) with 100 in Hr.
      change (inject_Z (10 ^ 15)) with (1000000000000000 # 1) in Hc2.
      change (inject_Z (2 ^ 44)) with (17592186044416 # 1). lra. }
    apply Qpower_lt_compat_l_inv in H; [lia|done].
Qed.

Lemma round_ratio_cents (s : bool) (c : Z) :
  (0 < c < 10 ^ 15)%Z →
  ∃ m u,
    round_ratio s c 100 = S754_finite s m u ∧
    Qabs (inject_Z (Z.pos m) * inject_Z 2 ^ u - ratio c 100) <= 1 # 1024.
Proof.
  intros Hc. pose proof (cents_exponent c Hc) as He.
  destruct (round_ratio_normal s c 100 (proj1 Hc) eq_refl ltac:(lia))
    as (m & u & Hx & Herr).
  exists m, u. split; [done|].
  assert (inject_Z 2 ^ (floor_log2_ratio c 100 - 52) <= inject_Z 2 ^ (-9)) as H
    by (apply Qpower_le_compat_l; [lia|done]).
  change (inject_Z 2 ^ (-9)) with (1 # 512) in H. lra.
Qed.

Lemma py_round_cents (s : bool) (m : positive) (u c : Z) :
  (0 < c)%Z →
  Qabs (inject_Z (Z.pos m) * inject_Z 2 ^ u - ratio c 100) <= 1 # 1024 →
  py_round (S754_finite s m u) 2 = round_ratio s c 100.
Proof.
  intros Hc Herr. unfold py_round. change (10 ^ 2)%Z with 100%Z.
  destruct (scale2 (Z.pos m * 100) 1 u) as [a b] eqn:Hs.
  destruct (scale2_ratio _ _ _ _ _ Z.lt_0_1 Hs) as [Hb Hab].
  assert (round_half_even a b = c) as ->.
  { apply round_half_even_unique; [done|].
    pose proof (ratio_spec a b Hb) as Hr.
    pose proof (ratio_spec c 100 eq_refl) as Hv.
    pose proof (inject_Z_pos b Hb) as Hbq.
    assert (ratio (Z.pos m * 100) 1 == inject_Z (Z.pos m) * 100) as Hm.
    { unfold ratio. rewrite inject_Z_mult. change (inject_Z 100) with 100.
      change (inject_Z 1) with 1. field. }
    rewrite Hm in Hab. clear Hm Hs.
    apply Qabs_Qle_condition in Herr as [He1 He2].
    change (inject_Z 100) with 100 in Hv.
    assert (- (1 # 2) < ratio a b - inject_Z c
            ∧ ratio a b - inject_Z c < 1 # 2) as [H1 H2].
    { rewrite Hab. revert He1 He2 Hv.
      generalize (inject_Z (Z.pos m)) (inject_Z 2 ^ u) (ratio c 100)
        (inject_Z c).
      intros M P v C He1 He2 Hv. split; lra. }
    assert (2 * inject_Z c * inject_Z b < 2 * inject_Z a + inject_Z b
            ∧ 2 * inject_Z a < 2 * inject_Z c * inject_Z b + inject_Z b)
      as [H3 H4].
    { rewrite <- Hr. revert H1 H2 Hbq.
      generalize (ratio a b) (inject_Z c) (inject_Z b).
      intros r C B H1 H2 HB.
      assert ((r - C) * B < (1 # 2) * B) by (apply Qmult_lt_r; done).
      assert (- (1 # 2) * B < (r - C) * B) by (apply Qmult_lt_r; done).
      split; lra. }
    revert H3 H4. change 2 with (inject_Z 2).
    rewrite <- !inject_Z_mult, <- !inject_Z_plus, <- !Zlt_Qlt. lia. }
  by rewrite (proj2 (Z.eqb_neq c 0)) by lia.
Qed.
End two_places.

Lemma within_cents (d : decimal) (m : positive) (u : Z) :
  (-2 <= dec_exp d)%Z →
  (Qabs (inject_Z (Z.pos m) * inject_Z 2 ^ u - ratio (cents d) 100)
     <= 1 # 1024)%Q →
  within (1 # 1000) (S754_finite (dec_sign d) m u) d.
Proof.
  intros He Herr. unfold within, Q_of_float.
  rewrite (Q_of_decimal_cents d He).
  eapply Qle_lt_trans; [|exact (eq_refl : (1 # 1024 < 1 # 1000)%Q)].
  destruct (dec_sign d); [|done].
  rewrite <- Qabs_opp.
  eapply Qle_trans; [|exact Herr].
  apply Qle_lteq. right. apply Qabs_wd. ring.
Qed.

(** C6, refuted as stated: [Decimal('0.005')] becomes the float nearest
    to 0.005; rounded to two places that float is 0.01, which is 0.005 away
    from the decimal, not less than 0.001. *)
Lemma C6_counterexample :
  float_of_decimal half_cent = S754_finite false 5764607523034235 (-60) ∧
  py_round (float_of_decimal half_cent) 2
    = S754_finite false 5764607523034235 (-59) ∧
  ¬ within (1 # 1000) (py_round (float_of_decimal half_cent) 2) half_cent.
Proof.
  split; [reflexivity|]. split; [reflexivity|].
  vm_compute. intros H. discriminate H.
Qed.

Lemma py_round_two_places (d : decimal) :
  (-2 <= dec_exp d)%Z → (cents d < 10 ^ 15)%Z →
  py_round (float_of_decimal d) 2 = float_of_decimal d ∧
  within (1 # 1000) (py_round (float_of_decimal d) 2) d.
Proof.
  intros He Hc.
  assert (0 <= cents d)%Z as H0.
  { unfold cents. apply Z.mul_nonneg_nonneg; [lia|].
    apply Z.pow_nonneg. lia. }
  destruct (Z.eq_dec (cents d) 0%Z) as [Hz|Hnz].
  - assert (Z.of_N (dec_coef d) = 0)%Z as Hcoef.
    { unfold cents in Hz. apply Z.mul_eq_0 in Hz as [Hz|Hz]; [done|].
      apply Z.pow_nonzero in Hz; [done|lia..]. }
    unfold float_of_decimal. rewrite Hcoef. cbn [Z.eqb py_round].
    split; [done|]. unfold within, Q_of_float.
    rewrite (Q_of_decimal_cents d He), Hz.
    by destruct (dec_sign d).
  - assert (0 < cents d < 10 ^ 15)%Z as Hr by lia.
    rewrite (float_of_decimal_cents d He (proj1 Hr)).
    destruct (round_ratio_cents (dec_sign d) (cents d) Hr)
      as (m & u & Hx & Herr).
    rewrite Hx, (py_round_cents _ m u (cents d) (proj1 Hr) Herr), Hx.
    split; [done|]. by apply within_cents.
Qed.

(** C6, amended: a decimal attribute is stored as the binary64 float nearest
    to it; when the decimal has at most two fractional digits and a
    magnitude below 10^13, that float rounded to 2 decimal places is the
    float itself and differs from the decimal by less than 0.001. *)
Theorem C6_decimal_to_float (attr_name : string) (d : decimal) :
  (-2 <= dec_exp d)%Z → (cents d < 10 ^ 15)%Z →
  normalize attr_name (VDecimal d)
    = [(attr_name, VFloat (float_of_decimal d))] ∧
  py_round (float_of_decimal d) 2 = float_of_decimal d ∧
  within (1 # 1000) (py_round (float_of_decimal d) 2) d.
Proof.
  intros He Hc. split; [done|]. by apply py_round_two_places.
Qed.

Lemma C6_decimal_to_float_witness :
  let d := mk_decimal true 2317 (-2) in
  (-2 <= dec_exp d)%Z ∧ (cents d < 10 ^ 15)%Z ∧
  float_of_decimal d = S754_finite true 6521775210385900 (-48) ∧
  py_round (float_of_decimal d) 2 = float_of_decimal d ∧
  within (1 # 1000) (py_round (float_of_decimal d) 2) d.
Proof.
  cbn zeta. split; [vm_compute; congruence|].
  split; [vm_compute; reflexivity|]. split; [reflexivity|].
  apply (C6_decimal_to_float "trnamt" (mk_decimal true 2317 (-2)));
    [vm_compute; congruence|vm_compute; reflexivity].
Defined.

(** * Part III: further properties of the converter and of the command line *)

(** ** Positions are extracted like transactions *)

Lemma positions_step_spec acc st :
  positions_step acc st = acc ++ position_records st.
Proof.
  unfold positions_step, position_records, statement_positions.
  destruct (positions st) as [[l|]|]; [|by rewrite app_nil_r..].
  apply (foldl_snoc_fmap
           (λ pos, _position_to_dict pos (position_account_info (account st)))).
Qed.

Lemma foldl_positions_step acc (doc : document) :
  foldl positions_step acc doc = acc ++ concat (position_records <$> doc).
Proof.
  revert acc. induction doc as [|st doc IH]; intros acc;
    cbn [foldl fmap list_fmap concat].
  - by rewrite app_nil_r.
  - by rewrite IH, positions_step_spec, <- app_assoc.
Qed.

Lemma extract_positions_spec (doc : document) :
  extract_positions doc = concat (position_records <$> doc).
Proof. apply (foldl_positions_step []). Qed.




(** ** The account context is in every record *)

Lemma foldl_assign_preserves (l : list (string * pyval)) (d : record) k :
  is_Some (d !! k) → is_Some (foldl assign d l !! k).
Proof.
  revert d. induction l as [|[k' x'] l IH]; intros d Hd; cbn [foldl]; [done|].
  apply IH. unfold assign. cbn.
  destruct (decide (k' = k)) as [->|Hne].
  - rewrite lookup_insert_eq. eauto.
  - by rewrite lookup_insert_ne.
Qed.

Lemma attr_step_preserves o (d : record) name k :
  is_Some (d !! k) → is_Some (attr_step o d name !! k).
Proof.
  intros Hd. unfold attr_step.
  destruct (getattr o name) as [v|]; [|done].
  destruct (startswith_underscore name || callable v); [done|].
  by apply foldl_assign_preserves.
Qed.

Lemma attr_loop_preserves o names (d : record) k :
  is_Some (d !! k) → is_Some (foldl (attr_step o) d names !! k).
Proof.
  revert d. induction names as [|n names IH]; intros d Hd; cbn [foldl]; [done|].
  by apply IH, attr_step_preserves.
Qed.

Lemma flatten_preserves o (account_info : record) k :
  is_Some (account_info !! k) →
  is_Some (_transaction_to_dict o account_info !! k) ∧
  is_Some (_position_to_dict o account_info !! k).
Proof.
  intros H. split; apply attr_loop_preserves; by rewrite dict_update_empty.
Qed.

Lemma elem_of_concat {A} (x : A) (ls : list (list A)) :
  x ∈ concat ls ↔ ∃ l, x ∈ l ∧ l ∈ ls.
Proof.
  induction ls as [|l ls IH]; cbn [concat].
  - split; [by intros ?%elem_of_nil|]. by intros (l & _ & ?%elem_of_nil).
  - rewrite elem_of_app, IH. split.
    + intros [H|(l' & H & Hl')].
      * exists l. split; [done|apply list_elem_of_here].
      * exists l'. split; [done|by apply list_elem_of_further].
    + intros (l' & H & [->|Hl']%elem_of_cons); [by left|].
      right. eauto.
Qed.

(** X2: every transaction record extracted from a document has the keys
    [account_id], [account_type] and [bank_id], and every position record
    the keys [account_id] and [broker_id], whatever the account and the
    transaction or position objects expose. *)
Theorem X2_account_keys_present (doc : document) (r : record) :
  (r ∈ extract_transactions doc →
   is_Some (r !! "account_id") ∧ is_Some (r !! "account_type") ∧
   is_Some (r !! "bank_id")) ∧
  (r ∈ extract_positions doc →
   is_Some (r !! "account_id") ∧ is_Some (r !! "broker_id")).
Proof.
  split.
  - rewrite extract_transactions_spec. intros H.
    apply elem_of_concat in H as (rs & Hr & Hrs).
    apply list_elem_of_fmap in Hrs as (st & -> & _).
    unfold statement_records in Hr.
    apply list_elem_of_fmap in Hr as (trx & -> & _).
    repeat split; apply flatten_preserves;
      unfold transaction_account_info; by simplify_map_eq.
  - rewrite extract_positions_spec. intros H.
    apply elem_of_concat in H as (rs & Hr & Hrs).
    apply list_elem_of_fmap in Hrs as (st & -> & _).
    unfold position_records in Hr.
    apply list_elem_of_fmap in Hr as (pos & -> & _).
    repeat split; apply flatten_preserves;
      unfold position_account_info; by simplify_map_eq.
Qed.

(** ** Every scalar attribute reaches the record *)

Lemma prefix_le (n s : string) : String.le n (n +:+ s).
Proof.
  unfold String.le, String.leb.
  assert (String.compare n (n +:+ s) ≠ Gt) as H.
  { induction n as [|c n IH].
    - by destruct s.
    - change (String c n +:+ s) with (String c (n +:+ s)).
      cbn [String.compare].
      assert (Ascii.compare c c = Eq) as ->; [|done].
      unfold Ascii.compare. apply N.compare_refl. }
  by destruct (String.compare n (n +:+ s)).
Qed.

Lemma touches_le name k : touches name k → String.le name k.
Proof.
  intros [->|[->| ->]]; [|apply prefix_le..].
  rewrite <- (append_empty_r name) at 2. apply prefix_le.
Qed.

Lemma attr_step_untouched o (d : record) name k :
  ¬ touches name k → attr_step o d name !! k = d !! k.
Proof.
  intros Hk. unfold attr_step.
  destruct (getattr o name) as [v|]; [|done].
  destruct (startswith_underscore name || callable v); [done|].
  assert (∀ x, (k, x) ∉ normalize name v) as Hn.
  { intros x Hx. apply Hk.
    apply normalize_keys in Hx as [[-> _]|(attrs & _ & [[-> _]|[-> _]])];
      unfold touches; auto. }
  revert d. induction (normalize name v) as [|[k' x'] l IH]; intros d;
    cbn [foldl]; [done|].
  rewrite IH.
  - unfold assign. cbn. rewrite lookup_insert_ne; [done|].
    intros ->. apply (Hn x'). apply list_elem_of_here.
  - intros x Hx. apply (Hn x). by apply list_elem_of_further.
Qed.

Lemma attr_loop_untouched o names (d : record) k :
  (∀ n, n ∈ names → ¬ touches n k) →
  foldl (attr_step o) d names !! k = d !! k.
Proof.
  revert d. induction names as [|n names IH]; intros d Hn; cbn [foldl]; [done|].
  rewrite IH.
  - apply attr_step_untouched, Hn, list_elem_of_here.
  - intros n' Hn'. by apply Hn, list_elem_of_further.
Qed.

Lemma attr_step_own o (d : record) k v x :
  getattr o k = Some v → startswith_underscore k = false →
  own_field v = Some x →
  attr_step o d k !! k = Some x.
Proof.
  intros Hv Hpub Hx. unfold attr_step. rewrite Hv, Hpub.
  destruct v; simplify_eq/=; unfold assign; cbn; apply lookup_insert_eq.
Qed.

Lemma attr_loop_own o names (d : record) k v x :
  StronglySorted String.le names → NoDup names → k ∈ names →
  getattr o k = Some v → startswith_underscore k = false →
  own_field v = Some x →
  foldl (attr_step o) d names !! k = Some x.
Proof.
  intros Hs Hnd Hin Hv Hpub Hx. revert d.
  induction Hs as [|n names Hs IH Hall]; intros d.
  { by apply elem_of_nil in Hin. }
  apply NoDup_cons in Hnd as [Hn Hnd]. cbn [foldl].
  apply elem_of_cons in Hin as [->|Hin]; [|by apply IH].
  rewrite attr_loop_untouched; [by eapply attr_step_own|].
  intros n' Hn' Ht%touches_le.
  rewrite Forall_forall in Hall. specialize (Hall n' Hn').
  assert (n' = n) as -> by (by apply (anti_symm String.le)).
  done.
Qed.

Lemma dir_sorted (o : pyobj) : StronglySorted String.le (dir o).
Proof. apply (StronglySorted_merge_sort _). Qed.

Lemma dir_NoDup (o : pyobj) : NoDup (dir o).
Proof.
  unfold dir. rewrite merge_sort_Permutation. apply NoDup_remove_dups.
Qed.

(** X3: every attribute of a transaction or position object that is not
    private (no leading underscore) and holds a datetime, a Decimal, a
    string, an integer, a float or a boolean is in the flat record under its
    own name, with its normalised value. No other attribute can take the
    name over: a derived key [<a>_uniqueid] is written while the loop is at
    [a], which [dir] lists before the longer name. *)
Theorem X3_scalar_attributes_kept
    (obj : pyobj) (account_info : record) (k : string) (v x : pyval) :
  getattr obj k = Some v →
  startswith_underscore k = false →
  own_field v = Some x →
  _transaction_to_dict obj account_info !! k = Some x ∧
  _position_to_dict obj account_info !! k = Some x.
Proof.
  intros Hv Hpub Hx.
  assert (k ∈ dir obj) as Hin by (apply elem_of_dir; eauto).
  split; eapply attr_loop_own; eauto using dir_sorted, dir_NoDup.
Qed.

Lemma X3_scalar_attributes_kept_witness :
  getattr derived_collision_trx "secid_uniqueid" = Some (VStr "OWN") ∧
  startswith_underscore "secid_uniqueid" = false ∧
  own_field (VStr "OWN") = Some (VStr "OWN") ∧
  _transaction_to_dict derived_collision_trx ∅ !! "secid_uniqueid"
    = Some (VStr "OWN").
Proof.
  split; [reflexivity|]. split; [reflexivity|]. split; [reflexivity|].
  apply (X3_scalar_attributes_kept derived_collision_trx ∅ "secid_uniqueid"
           (VStr "OWN") (VStr "OWN")); reflexivity.
Defined.

(** ** What [to_csv] writes *)



(** ** The parser runs once *)

Section parse_once.
Context {collab : Collaborators}.

Lemma parse_count_written w path f :
  parse_count (written w path f) = parse_count w.
Proof.
  unfold parse_count, written. cbn [log].
  by rewrite filter_app, length_app, Nat.add_0_r.
Qed.

Lemma parse_count_loaded c w doc :
  parse_count (loaded c w doc).2
    = (parse_count w + if _parsed c then 0 else 1)%nat.
Proof.
  unfold loaded. destruct (_parsed c); cbn [snd]; [lia|].
  unfold parse_count. cbn [log]. by rewrite filter_app, length_app.
Qed.

Lemma parse_count_csv_world w path doc :
  parse_count (csv_world w path doc) = parse_count w.
Proof.
  unfold csv_world. cbn zeta.
  destruct (extract_positions doc); by rewrite !parse_count_written.
Qed.
End parse_once.

(** X5: [to_csv] and [to_json] call [_extract_transactions] and
    [_extract_positions], yet on a converter that has not parsed its input
    the parser is invoked exactly once, and on one that has, not at all:
    the second extraction, and any later call, reuses the parsed document.
    This holds whether the method returns or raises after loading. *)
Theorem X5_parser_runs_once {collab : Collaborators}
    (c : converter) (w : world) (doc : document)
    (output_file : option string) (indent : Z) :
  loads c w doc →
  let csv := QFXConverter.to_csv output_file (c, w) in
  let json := QFXConverter.to_json output_file indent (c, w) in
  parse_count csv.2.2 = (parse_count w + if _parsed c then 0 else 1)%nat ∧
  parse_count json.2.2 = (parse_count w + if _parsed c then 0 else 1)%nat ∧
  _parsed csv.2.1 = true ∧ ofx_data csv.2.1 = Some doc ∧
  _parsed json.2.1 = true ∧ ofx_data json.2.1 = Some doc.
Proof.
  intros Hl. cbn zeta.
  rewrite (to_csv_spec c w doc output_file Hl).
  rewrite (to_json_spec c w doc output_file indent Hl).
  destruct (loaded_holds c w doc Hl) as [Hp Hd].
  cbn zeta.
  assert (parse_count (loaded c w doc).2
          = (parse_count w + if _parsed c then 0 else 1)%nat) as Hn
    by apply parse_count_loaded.
  destruct (extract_transactions doc) as [|trx rest]; cbn [fst snd]; [done|].
  split; [|split].
  - destruct (write_failure (target c output_file ".csv")); [done|].
    destruct (extract_positions doc) as [|pos more]; cbn [fst snd];
      [by rewrite parse_count_written|].
    destruct (write_failure _); cbn [fst snd];
      by rewrite ?parse_count_written.
  - destruct (write_failure (target c output_file ".json")); [done|].
    destruct (data_encodable (json_data doc)); cbn [fst snd];
      by rewrite parse_count_written.
  - destruct (write_failure (target c output_file ".csv")),
      (write_failure (target c output_file ".json")); cbn [fst snd];
      try destruct (extract_positions doc) as [|pos more]; cbn [fst snd];
      try destruct (write_failure (with_suffix _ _)); cbn [fst snd];
      try destruct (data_encodable (json_data doc)); cbn [fst snd]; done.
Qed.

Lemma X5_parser_runs_once_witness :
  let collab := sample_collaborators sample_doc in
  let csv := QFXConverter.to_csv None (fresh "statement", sample_world) in
  parse_count sample_world = 0%nat ∧ parse_count csv.2.2 = 1%nat ∧
  parse_count (QFXConverter.to_csv None csv.2).2.2 = 1%nat.
Proof.
  cbn zeta.
  assert (loads (collab := sample_collaborators sample_doc)
            (fresh "statement") sample_world sample_doc) as Hl.
  { right. split; [reflexivity|].
    exists (FBytes "OFXHEADER:100"). split; reflexivity. }
  destruct (X5_parser_runs_once (collab := sample_collaborators sample_doc)
              (fresh "statement") sample_world sample_doc None 2 Hl)
    as (Hcsv & _).
  split; [reflexivity|]. split; [exact Hcsv|].
  vm_compute. reflexivity.
Defined.

(** ** A file the parser rejects *)

(** X6: when the parser rejects the input file with the text [e], a
    converter that has not parsed yet raises [ValueError] with the message
    ["Failed to parse OFX file: "] followed by [e] from [to_csv], [to_json],
    [_extract_transactions] and [_extract_positions] alike; no file is
    written or opened for writing, and the converter stays unparsed, so a
    later call parses again. *)
Theorem X6_parse_failure {collab : Collaborators}
    (c : converter) (w : world) (f : file) (e : string)
    (output_file : option string) (indent : Z) :
  _parsed c = false →
  fs w !! input_file c = Some f →
  ofx_parse f = inl e →
  let failed := ValueError ("Failed to parse OFX file: " +:+ e) in
  let after := (c, mk_world (fs w) (log w ++ [EvParse (input_file c)])) in
  QFXConverter.to_csv output_file (c, w) = (inl failed, after) ∧
  QFXConverter.to_json output_file indent (c, w) = (inl failed, after) ∧
  QFXConverter._extract_transactions (c, w) = (inl failed, after) ∧
  QFXConverter._extract_positions (c, w) = (inl failed, after).
Proof.
  intros Hp Hf He. cbn zeta.
  assert (QFXConverter.statements (c, w)
          = (inl (ValueError ("Failed to parse OFX file: " +:+ e)),
             (c, mk_world (fs w) (log w ++ [EvParse (input_file c)]))))
    as Hs.
  { unfold QFXConverter.statements, QFXConverter.parse. run.
    rewrite Hp. cbn. rewrite Hf. cbn. by rewrite He. }
  assert (QFXConverter._extract_transactions (c, w)
          = (inl (ValueError ("Failed to parse OFX file: " +:+ e)),
             (c, mk_world (fs w) (log w ++ [EvParse (input_file c)]))))
    as Ht.
  { unfold QFXConverter._extract_transactions, bind. by rewrite Hs. }
  repeat split.
  - unfold QFXConverter.to_csv, QFXConverter.or_default.
    unfold bind at 1 2. unfold get_self at 1. cbn [fst snd ret].
    unfold bind at 1. by rewrite Ht.
  - unfold QFXConverter.to_json, QFXConverter.or_default.
    unfold bind at 1 2. unfold get_self at 1. cbn [fst snd ret].
    unfold bind at 1. by rewrite Ht.
  - exact Ht.
  - unfold QFXConverter._extract_positions, bind. by rewrite Hs.
Qed.

Lemma X6_parse_failure_witness :
  QFXConverter.to_csv (collab := rejecting_collaborators) None
    (fresh "statement", sample_world)
  = (inl (ValueError "Failed to parse OFX file: syntax error"),
     (fresh "statement",
      mk_world (fs sample_world) [EvParse "statement"])).
Proof.
  apply (X6_parse_failure (collab := rejecting_collaborators)
           (fresh "statement") sample_world (FBytes "OFXHEADER:100")
           "syntax error" None 2); reflexivity.
Defined.

(** ** The accuracy of [float(Decimal)] *)

Section accuracy.
Local Open Scope Q_scope.

Lemma dec_den_pos (d : decimal) : (0 < dec_den d)%Z.
Proof.
  unfold dec_den. destruct (Z.leb_spec 0 (dec_exp d)); [done|].
  apply Z.pow_pos_nonneg; lia.
Qed.

Lemma dec_num_pos (d : decimal) :
  (0 < Z.of_N (dec_coef d))%Z → (0 < dec_num d)%Z.
Proof.
  intros Hc. unfold dec_num. destruct (Z.leb_spec 0 (dec_exp d)); [|done].
  apply Z.mul_pos_pos; [done|]. by apply Z.pow_pos_nonneg.
Qed.

Lemma float_of_decimal_fraction (d : decimal) :
  (0 < Z.of_N (dec_coef d))%Z →
  float_of_decimal d = round_ratio (dec_sign d) (dec_num d) (dec_den d).
Proof.
  intros Hc. unfold float_of_decimal, dec_num, dec_den.
  rewrite (proj2 (Z.eqb_neq _ 0)) by lia.
  by destruct (0 <=? dec_exp d)%Z.
Qed.

Lemma Q_of_decimal_fraction (d : decimal) :
  Q_of_decimal d ==
    if dec_sign d then - ratio (dec_num d) (dec_den d)
    else ratio (dec_num d) (dec_den d).
Proof.
  unfold Q_of_decimal, dec_num, dec_den, ratio. cbn zeta.
  assert (inject_Z (Z.of_N (dec_coef d)) * inject_Z 10 ^ dec_exp d
          == inject_Z (if (0 <=? dec_exp d)%Z
                       then (Z.of_N (dec_coef d) * 10 ^ dec_exp d)%Z
                       else Z.of_N (dec_coef d))
             / inject_Z (if (0 <=? dec_exp d)%Z then 1%Z
                         else (10 ^ (- dec_exp d))%Z)) as Heq.
  { destruct (Z.leb_spec 0 (dec_exp d)) as [Hpos|Hneg].
    - rewrite inject_Z_mult, Zpower_Qpower by done.
      change (inject_Z 1) with 1. field.
    - rewrite Zpower_Qpower, Qpower_opp by lia.
      assert (0 < inject_Z 10 ^ dec_exp d) as Hp by (by apply Qpower_0_lt).
      revert Hp. generalize (inject_Z 10 ^ dec_exp d). intros p Hp.
      field. lra. }
  destruct (dec_sign d); by rewrite Heq.
Qed.

Lemma ratio_pos (a b : Z) : (0 < a)%Z → (0 < b)%Z → 0 < ratio a b.
Proof.
  intros Ha Hb. pose proof (ratio_spec a b Hb) as Hr.
  pose proof (inject_Z_pos a Ha). pose proof (inject_Z_pos b Hb) as HB.
  revert Hr H HB. generalize (ratio a b) (inject_Z a) (inject_Z b).
  intros r A B Hr HA HB.
  destruct (Qlt_le_dec 0 r) as [|Hle]; [done|exfalso].
  assert (r * B <= 0 * B) by (apply Qmult_le_r; done). lra.
Qed.

Lemma Qabs_Q_of_decimal (d : decimal) :
  (0 < Z.of_N (dec_coef d))%Z →
  Qabs (Q_of_decimal d) == ratio (dec_num d) (dec_den d).
Proof.
  intros Hc. rewrite Q_of_decimal_fraction.
  pose proof (ratio_pos _ _ (dec_num_pos d Hc) (dec_den_pos d)) as Hp.
  destruct (dec_sign d); [rewrite Qabs_opp|]; apply Qabs_pos; lra.
Qed.
End accuracy.

Section relative_error.
Local Open Scope Q_scope.

Lemma normal_exponent (n d : Z) :
  (0 < n)%Z → (0 < d)%Z →
  inject_Z 2 ^ (-1022) <= ratio n d → ratio n d < inject_Z 2 ^ 1023 →
  (-1022 <= floor_log2_ratio n d <= 1022)%Z.
Proof.
  intros Hn Hd Hlo Hhi.
  destruct (floor_log2_ratio_spec n d Hn Hd) as [H1 H2].
  set (e := floor_log2_ratio n d) in *.
  rewrite <- pow2_succ in H2. split.
  - assert (inject_Z 2 ^ (-1022) < inject_Z 2 ^ (e + 1)) as H
      by (eapply Qle_lt_trans; eauto).
    apply Qpower_lt_compat_l_inv in H; [lia|done].
  - assert (inject_Z 2 ^ e < inject_Z 2 ^ 1023) as H
      by (eapply Qle_lt_trans; eauto).
    apply Qpower_lt_compat_l_inv in H; [lia|done].
Qed.

Lemma round_ratio_relative (s : bool) (n d : Z) :
  (0 < n)%Z → (0 < d)%Z →
  inject_Z 2 ^ (-1022) <= ratio n d → ratio n d < inject_Z 2 ^ 1023 →
  ∃ m u,
    round_ratio s n d = S754_finite s m u ∧
    Qabs (inject_Z (Z.pos m) * inject_Z 2 ^ u - ratio n d)
      <= ratio n d * inject_Z 2 ^ (-53).
Proof.
  intros Hn Hd Hlo Hhi.
  pose proof (normal_exponent n d Hn Hd Hlo Hhi) as He.
  destruct (round_ratio_normal s n d Hn Hd He) as (m & u & Hx & Herr).
  exists m, u. split; [done|].
  destruct (floor_log2_ratio_spec n d Hn Hd) as [H1 _].
  set (e := floor_log2_ratio n d) in *.
  assert (inject_Z 2 ^ (e - 52) == inject_Z 2 ^ e * inject_Z 2 ^ (-53) * 2)
    as Hsplit.
  { replace (e - 52)%Z with (e + -53 + 1)%Z by lia.
    rewrite pow2_succ, Qpower_plus by done. ring. }
  rewrite Hsplit in Herr.
  pose proof (pow2_pos (-53)) as Hp.
  assert (inject_Z 2 ^ e * inject_Z 2 ^ (-53)
          <= ratio n d * inject_Z 2 ^ (-53)) as Hmul
    by (apply Qmult_le_r; done).
  revert Herr Hmul.
  generalize (Qabs (inject_Z (Z.pos m) * inject_Z 2 ^ u - ratio n d))
    (inject_Z 2 ^ e * inject_Z 2 ^ (-53)) (ratio n d * inject_Z 2 ^ (-53)).
  intros x y z Herr Hmul. lra.
Qed.
End relative_error.

(** X7: the float a Decimal attribute is converted to (line 89) is a finite
    number within a relative error of [2^-53] of the decimal, for every
    non-zero decimal whose magnitude is in the normal range of binary64,
    from [2^-1022] up to [2^1023]. *)
Theorem X7_float_relative_error (d : decimal) :
  (0 < Z.of_N (dec_coef d))%Z →
  (inject_Z 2 ^ (-1022) <= Qabs (Q_of_decimal d))%Q →
  (Qabs (Q_of_decimal d) < inject_Z 2 ^ 1023)%Q →
  ∃ q, Q_of_float (float_of_decimal d) = Some q ∧
       (Qabs (q - Q_of_decimal d)
        <= Qabs (Q_of_decimal d) * inject_Z 2 ^ (-53))%Q.
Proof.
  intros Hc Hlo Hhi.
  rewrite (Qabs_Q_of_decimal d Hc) in Hlo, Hhi.
  destruct (round_ratio_relative (dec_sign d) (dec_num d) (dec_den d)
              (dec_num_pos d Hc) (dec_den_pos d) Hlo Hhi)
    as (m & u & Hx & Herr).
  rewrite (float_of_decimal_fraction d Hc), Hx. cbn [Q_of_float].
  eexists. split; [done|].
  rewrite (Qabs_Q_of_decimal d Hc).
  eapply Qle_trans; [|exact Herr].
  rewrite (Q_of_decimal_fraction d).
  destruct (dec_sign d); [|apply Qle_refl].
  rewrite <- Qabs_opp. apply Qle_lteq. right. apply Qabs_wd. ring.
Qed.

Lemma X7_float_relative_error_witness :
  let d := mk_decimal true 2317 (-2) in
  ∃ q, Q_of_float (float_of_decimal d) = Some q ∧
       (Qabs (q - Q_of_decimal d)
        <= Qabs (Q_of_decimal d) * inject_Z 2 ^ (-53))%Q.
Proof.
  cbn zeta.
  apply (X7_float_relative_error (mk_decimal true 2317 (-2)));
    [reflexivity|vm_compute; congruence|vm_compute; reflexivity].
Defined.

Section whole_numbers.
Local Open Scope Q_scope.

Lemma round_half_even_one (a : Z) : round_half_even a 1 = a.
Proof. unfold round_half_even. by rewrite Z.div_1_r, Z.mod_1_r. Qed.

Lemma ratio_one (n : Z) : ratio n 1 == inject_Z n.
Proof. unfold ratio. change (inject_Z 1) with 1. field. Qed.

Lemma round_ratio_integer (s : bool) (n : Z) :
  (0 < n < 2 ^ 53)%Z →
  ∃ m u,
    round_ratio s n 1 = S754_finite s m u ∧
    inject_Z (Z.pos m) * inject_Z 2 ^ u == inject_Z n.
Proof.
  intros [Hn Hn53].
  destruct (floor_log2_ratio_spec n 1 Hn Z.lt_0_1) as [H1 H2].
  rewrite ratio_one in H1, H2. rewrite <- pow2_succ in H2.
  unfold round_ratio. set (e := floor_log2_ratio n 1) in *.
  assert (0 <= e <= 52)%Z as He.
  { split.
    - assert (inject_Z 2 ^ 0 < inject_Z 2 ^ (e + 1)) as H.
      { eapply Qle_lt_trans; [|exact H2].
        change (inject_Z 2 ^ 0) with (inject_Z 1). rewrite <- Zle_Qle. lia. }
      apply (Qpower_lt_compat_l_inv (inject_Z 2) 0 (e + 1)) in H; [lia|done].
    - assert (inject_Z 2 ^ e < inject_Z 2 ^ 53) as H.
      { eapply Qle_lt_trans; [exact H1|].
        rewrite <- (pow2_nonneg_inject 53), <- Zlt_Qlt by done. done. }
      apply (Qpower_lt_compat_l_inv (inject_Z 2) e 53) in H; [lia|done]. }
  assert (n < 2 ^ (e + 1))%Z as Hhi.
  { rewrite <- pow2_nonneg_inject, <- Zlt_Qlt in H2 by lia. done. }
  replace (Z.max (e - 52) (-1074)) with (e - 52)%Z by lia.
  unfold scale2. rewrite (proj2 (Z.leb_le 0 (- (e - 52)))) by lia.
  rewrite round_half_even_one.
  assert (0 < 2 ^ (- (e - 52)))%Z as Hp by (apply Z.pow_pos_nonneg; lia).
  assert (n * 2 ^ (- (e - 52)) < 2 ^ 53)%Z as Hm.
  { replace 53%Z with (e + 1 + - (e - 52))%Z by lia.
    rewrite Z.pow_add_r by lia. nia. }
  rewrite (proj2 (Z.eqb_neq _ 0)) by nia.
  rewrite (proj2 (Z.eqb_neq _ (2 ^ 53))) by lia.
  rewrite (proj2 (Z.ltb_ge 971 (e - 52))) by lia.
  eexists _, _. split; [done|].
  rewrite Z2Pos.id by nia.
  rewrite inject_Z_mult, pow2_nonneg_inject by lia.
  rewrite <- Qmult_assoc, (Qmult_comm (inject_Z 2 ^ (- (e - 52)))).
  rewrite pow2_inverse. ring.
Qed.
End whole_numbers.

(** X8: a Decimal attribute whose value is a whole number of magnitude
    below [2^53], written with any exponent ([-100], [-100.00], [1E+2]), is
    converted to a float of exactly that value: whole amounts lose
    nothing. *)
Theorem X8_whole_numbers_exact (d : decimal) (n : Z) :
  (0 < n < 2 ^ 53)%Z →
  (Qabs (Q_of_decimal d) == inject_Z n)%Q →
  ∃ q, Q_of_float (float_of_decimal d) = Some q ∧ (q == Q_of_decimal d)%Q.
Proof.
  intros Hn Hd.
  pose proof (dec_den_pos d) as Hden.
  assert (0 < Z.of_N (dec_coef d))%Z as Hc.
  { destruct (dec_coef d) as [|p] eqn:E; [exfalso|done].
    unfold Q_of_decimal in Hd. rewrite E in Hd. cbn zeta in Hd.
    assert (inject_Z n == 0)%Q as H0.
    { rewrite <- Hd. change (inject_Z (Z.of_N 0)) with 0%Q.
      destruct (dec_sign d); [rewrite Qabs_opp|];
        rewrite Qmult_0_l; reflexivity. }
    change 0%Q with (inject_Z 0) in H0.
    apply (proj1 (inject_Z_injective _ _)) in H0. lia. }
  assert (dec_num d = n * dec_den d)%Z as Hcross.
  { rewrite (Qabs_Q_of_decimal d Hc) in Hd.
    pose proof (ratio_spec (dec_num d) (dec_den d) Hden) as Hr.
    rewrite Hd, <- inject_Z_mult in Hr.
    apply (proj1 (inject_Z_injective _ _)) in Hr. by symmetry. }
  destruct (round_ratio_integer (dec_sign d) n Hn) as (m & u & Hx & Hval).
  rewrite (float_of_decimal_fraction d Hc).
  rewrite (round_ratio_cross _ (dec_num d) (dec_den d) n 1)
    by (try done; lia).
  rewrite Hx. cbn [Q_of_float]. eexists. split; [done|].
  rewrite (Q_of_decimal_fraction d).
  pose proof (ratio_cross (dec_num d) (dec_den d) n 1 Hden Z.lt_0_1
                ltac:(lia)) as Hr.
  rewrite ratio_one in Hr.
  destruct (dec_sign d); by rewrite Hr, Hval.
Qed.

Lemma X8_whole_numbers_exact_witness :
  let d := mk_decimal true 10000 (-2) in
  float_of_decimal d = S754_finite true 7036874417766400 (-46) ∧
  ∃ q, Q_of_float (float_of_decimal d) = Some q ∧ (q == Q_of_decimal d)%Q.
Proof.
  cbn zeta. split; [reflexivity|].
  apply (X8_whole_numbers_exact (mk_decimal true 10000 (-2)) 100);
    [split; reflexivity|vm_compute; reflexivity].
Defined.

(** ** [--quiet] only silences standard output *)

Section quiet.
Context {collab : Collaborators} (is_dir : string → bool).

Lemma convert_with_quiet a q input_file w :
  Cli.convert (with_quiet a q) input_file w = Cli.convert a input_file w.
Proof. reflexivity. Qed.

Lemma filter_info_loud a lines :
  filter (λ l, on_stderr l = true) (Cli.info (with_quiet a false) lines) = [].
Proof.
  unfold Cli.info. cbn [with_quiet Cli.quiet].
  induction lines as [|l lines IH]; [done|].
  cbn [fmap list_fmap]. rewrite filter_cons_False; [exact IH|].
  cbn. discriminate.
Qed.

Lemma step_same_but_stdout a silent loud input_file :
  same_but_stdout silent loud →
  same_but_stdout (Cli.step is_dir (with_quiet a true) silent input_file)
                  (Cli.step is_dir (with_quiet a false) loud input_file).
Proof.
  intros (Hs & He & Hw & Hc). unfold Cli.step. rewrite Hw.
  destruct (negb (exists_ (Cli.now loud) input_file)).
  { unfold same_but_stdout. cbn. rewrite filter_app, Hs, He, Hc. done. }
  destruct (is_dir input_file).
  { unfold same_but_stdout. cbn. rewrite filter_app, Hs, He, Hc. done. }
  rewrite !convert_with_quiet.
  destruct (Cli.convert a input_file (Cli.now loud)) as [[e|path] w'].
  - unfold same_but_stdout. cbn [Cli.success_count Cli.error_count Cli.now
      Cli.console].
    rewrite !filter_app, filter_info_loud, Hs, He, Hc.
    split; [done|]. split; [done|]. split; [done|].
    cbn. by rewrite app_nil_r.
  - unfold same_but_stdout. cbn [Cli.success_count Cli.error_count Cli.now
      Cli.console].
    rewrite !filter_app, !filter_info_loud, Hs, He, Hc.
    split; [done|]. split; [done|]. split; [done|].
    cbn. by rewrite !app_nil_r.
Qed.

Lemma loop_same_but_stdout a files silent loud :
  same_but_stdout silent loud →
  same_but_stdout (Cli.loop is_dir (with_quiet a true) silent files)
                  (Cli.loop is_dir (with_quiet a false) loud files).
Proof.
  unfold Cli.loop. revert silent loud.
  induction files as [|f files IH]; intros silent loud H; cbn [foldl]; [done|].
  by apply IH, step_same_but_stdout.
Qed.
End quiet.

(** X9: [--quiet] changes nothing but standard output: with and without
    it [main] returns the same exit code and leaves the same world, the
    quiet run prints nothing on standard output, and it prints on standard
    error exactly the lines the other run prints there. *)
Theorem X9_quiet_only_silences {collab : Collaborators}
    (is_dir : string → bool) (a : Cli.args) (w : world) :
  let silent := Cli.main is_dir (with_quiet a true) w in
  let loud := Cli.main is_dir (with_quiet a false) w in
  silent.1.1 = loud.1.1 ∧
  silent.2 = loud.2 ∧
  silent.1.2 = filter (λ l, on_stderr l = true) loud.1.2 ∧
  Forall (λ l, on_stderr l = true) silent.1.2.
Proof.
  cbn zeta.
  assert (∀ silent loud : nat * list (Cli.stream * string) * world,
            silent.1.2 = filter (λ l, on_stderr l = true) loud.1.2 →
            Forall (λ l, on_stderr l = true) silent.1.2) as Hall.
  { intros silent loud ->. apply Forall_forall.
    by intros l [? _]%list_elem_of_filter. }
  assert ((Cli.main is_dir (with_quiet a true) w).1.1
          = (Cli.main is_dir (with_quiet a false) w).1.1 ∧
          (Cli.main is_dir (with_quiet a true) w).2
          = (Cli.main is_dir (with_quiet a false) w).2 ∧
          (Cli.main is_dir (with_quiet a true) w).1.2
          = filter (λ l, on_stderr l = true)
              (Cli.main is_dir (with_quiet a false) w).1.2) as (H1 & H2 & H3).
  { unfold Cli.main.
    change (Cli.output_file (with_quiet a true)) with (Cli.output_file a).
    change (Cli.output_file (with_quiet a false)) with (Cli.output_file a).
    change (Cli.input_files (with_quiet a true)) with (Cli.input_files a).
    change (Cli.input_files (with_quiet a false)) with (Cli.input_files a).
    destruct (bool_decide (is_Some (Cli.output_file a))
              && (1 <? length (Cli.input_files a))%nat); [done|].
    cbn zeta.
    destruct (loop_same_but_stdout is_dir a (Cli.input_files a)
                (Cli.mk_progress 0 0 [] w) (Cli.mk_progress 0 0 [] w))
      as (Hs & He & Hw & Hc); [done|].
    cbn [fst snd]. rewrite He, Hw. split; [done|]. split; [done|].
    rewrite filter_app, Hc.
    destruct (1 <? length (Cli.input_files a))%nat; [|done].
    by rewrite filter_info_loud. }
  split; [done|]. split; [done|]. split; [done|]. by eapply Hall.
Qed.

(** ** A failing file does not stop the run *)

Section independence.
Context {collab : Collaborators} (is_dir : string → bool).

(** The loop on [p] does to the world and to the counters what it does
    from a blank start in the same world. *)
Lemma loop_from a files p :
  let blank := Cli.loop is_dir a (Cli.mk_progress 0 0 [] (Cli.now p)) files in
  let q := Cli.loop is_dir a p files in
  Cli.now q = Cli.now blank ∧
  Cli.success_count q = (Cli.success_count p + Cli.success_count blank)%nat ∧
  Cli.error_count q = (Cli.error_count p + Cli.error_count blank)%nat.
Proof.
  cbn zeta. unfold Cli.loop.
  assert (∀ p0 p1,
            Cli.now p0 = Cli.now p1 →
            Cli.now (foldl (Cli.step is_dir a) p1 files)
            = Cli.now (foldl (Cli.step is_dir a) p0 files) ∧
            (Cli.success_count (foldl (Cli.step is_dir a) p1 files)
             + Cli.success_count p0
             = Cli.success_count p1
               + Cli.success_count (foldl (Cli.step is_dir a) p0 files))%nat ∧
            (Cli.error_count (foldl (Cli.step is_dir a) p1 files)
             + Cli.error_count p0
             = Cli.error_count p1
               + Cli.error_count (foldl (Cli.step is_dir a) p0 files))%nat)
    as H.
  { induction files as [|f files IH]; intros p0 p1 Hw; cbn [foldl].
    { split; [done|]. lia. }
    assert (Cli.now (Cli.step is_dir a p0 f) = Cli.now (Cli.step is_dir a p1 f)
            ∧ (Cli.success_count (Cli.step is_dir a p1 f)
               + Cli.success_count p0
               = Cli.success_count p1
                 + Cli.success_count (Cli.step is_dir a p0 f))%nat
            ∧ (Cli.error_count (Cli.step is_dir a p1 f) + Cli.error_count p0
               = Cli.error_count p1
                 + Cli.error_count (Cli.step is_dir a p0 f))%nat)
      as (Hw' & Hs' & He').
    { unfold Cli.step. rewrite Hw.
      destruct (negb (exists_ (Cli.now p1) f)); [cbn; split; [done|lia]|].
      destruct (is_dir f); [cbn; split; [done|lia]|].
      destruct (Cli.convert a f (Cli.now p1)) as [[e|path] w'];
        cbn; (split; [done|lia]). }
    destruct (IH _ _ Hw') as (H1 & H2 & H3).
    split; [done|]. lia. }
  destruct (H (Cli.mk_progress 0 0 [] (Cli.now p)) p eq_refl)
    as (H1 & H2 & H3).
  cbn in H2, H3. split; [done|]. lia.
Qed.
End independence.

(** X10: without a single output path, [main] on the files [xs] followed by
    [ys] leaves the world that [main] on [ys] alone leaves when it starts in
    the world [main] on [xs] left, and its exit code is the larger of the
    two: whatever fails among [xs], the files of [ys] are converted as if
    given alone, and one failure anywhere gives exit code 1. *)
Theorem X10_files_are_independent {collab : Collaborators}
    (is_dir : string → bool) (a : Cli.args) (xs ys : list string)
    (w : world) :
  Cli.output_file a = None →
  let first := Cli.main is_dir (with_inputs a xs) w in
  let second := Cli.main is_dir (with_inputs a ys) first.2 in
  let both := Cli.main is_dir (with_inputs a (xs ++ ys)) w in
  both.2 = second.2 ∧
  both.1.1 = (first.1.1 `max` second.1.1)%nat.
Proof.
  intros Hout. cbn zeta. unfold Cli.main.
  change (Cli.output_file (with_inputs a ?l)) with (Cli.output_file a).
  rewrite Hout.
  rewrite (bool_decide_eq_false_2 (is_Some None)) by (by intros [? ?]).
  cbn [andb fst snd Cli.input_files with_inputs].
  assert (∀ l files p, Cli.loop is_dir (with_inputs a l) p files
                       = Cli.loop is_dir a p files) as Hloop.
  { intros l files. unfold Cli.loop.
    induction files as [|f files IH]; intros p; cbn [foldl]; [done|].
    rewrite IH. reflexivity. }
  rewrite !Hloop.
  assert (∀ p, Cli.loop is_dir a p (xs ++ ys)
               = Cli.loop is_dir a (Cli.loop is_dir a p xs) ys) as Happ
    by (intros p; apply foldl_app).
  rewrite !Happ.
  set (p1 := Cli.loop is_dir a (Cli.mk_progress 0 0 [] w) xs).
  destruct (loop_from is_dir a ys p1) as (Hw & _ & He).
  rewrite Hw, He. split; [done|].
  destruct (Cli.error_count p1);
    destruct (Cli.error_count
                (Cli.loop is_dir a (Cli.mk_progress 0 0 [] (Cli.now p1)) ys));
    done.
Qed.

Lemma X10_files_are_independent_witness :
  let collab := sample_collaborators sample_doc in
  let a := Cli.mk_args [] "csv" None false true in
  let both :=
    Cli.main (λ _, false) (with_inputs a (["missing"] ++ ["statement"]))
      sample_world in
  both.1.1 = 1%nat ∧
  both.2 = (Cli.main (λ _, false) (with_inputs a ["statement"])
              sample_world).2.
Proof.
  cbn zeta.
  destruct (X10_files_are_independent
              (collab := sample_collaborators sample_doc) (λ _, false)
              (Cli.mk_args [] "csv" None false true)
              ["missing"] ["statement"] sample_world eq_refl) as [Hw Hc].
  split; [rewrite Hc; vm_compute; reflexivity|exact Hw].
Defined.

(** ** Inputs that are not converted *)

Section not_converted.
Context {collab : Collaborators} (is_dir : string → bool).

Lemma loop_nothing_to_convert a files p :
  (∀ f, f ∈ files → fs (Cli.now p) !! f = None ∨ is_dir f = true) →
  let q := Cli.loop is_dir a p files in
  Cli.now q = Cli.now p ∧
  Cli.success_count q = Cli.success_count p ∧
  (Cli.error_count q = 0%nat ↔
   Cli.error_count p = 0%nat ∧
   ∀ f, f ∈ files → is_Some (fs (Cli.now p) !! f)).
Proof.
  cbn zeta. unfold Cli.loop. revert p.
  induction files as [|f files IH]; intros p Hin; cbn [foldl].
  { split; [done|]. split; [done|]. split; [|tauto].
    intros H. split; [done|]. by intros f ?%elem_of_nil. }
  assert (Cli.now (Cli.step is_dir a p f) = Cli.now p ∧
          Cli.success_count (Cli.step is_dir a p f) = Cli.success_count p ∧
          (Cli.error_count (Cli.step is_dir a p f) = 0%nat ↔
           Cli.error_count p = 0%nat ∧ is_Some (fs (Cli.now p) !! f)))
    as (Hw & Hs & He).
  { unfold Cli.step, exists_.
    destruct (Hin f (list_elem_of_here _ _)) as [Hf|Hd].
    - rewrite bool_decide_eq_false_2 by (rewrite Hf; by intros [? ?]).
      cbn. split; [done|]. split; [done|]. rewrite Hf.
      split; [done|]. by intros [_ [? ?]].
    - case_bool_decide as Hex; cbn [negb].
      + rewrite Hd. cbn. tauto.
      + cbn. split; [done|]. split; [done|]. split; [done|tauto]. }
  destruct (IH (Cli.step is_dir a p f)) as (Hw' & Hs' & He').
  { intros f' Hf'. rewrite Hw. by apply Hin, list_elem_of_further. }
  rewrite Hw', Hs', He', Hw, Hs, He.
  split; [done|]. split; [done|]. split.
  - intros [[H0 Hf] Hrest]. split; [done|].
    intros f' [->|Hf']%elem_of_cons; auto.
  - intros [H0 Hall]. split; [split; [done|]|].
    + apply Hall, list_elem_of_here.
    + intros f' Hf'. by apply Hall, list_elem_of_further.
Qed.
End not_converted.

(** X11: when every input path is missing or is a directory, [main]
    converts nothing: it leaves the world as it was (no file written, the
    parser never invoked). A directory is skipped without counting as an
    error, a missing file counts as one: unless the single-output rule
    already refused the arguments, the exit code is 0 exactly when every
    input exists, that is, when all of them are directories. *)
Theorem X11_nothing_to_convert {collab : Collaborators}
    (is_dir : string → bool) (a : Cli.args) (w : world) :
  (∀ f, f ∈ Cli.input_files a → fs w !! f = None ∨ is_dir f = true) →
  let result := Cli.main is_dir a w in
  result.2 = w ∧
  (is_Some (Cli.output_file a) ∧ (1 < length (Cli.input_files a))%nat →
   result.1.1 = 1%nat) ∧
  (¬ (is_Some (Cli.output_file a) ∧ (1 < length (Cli.input_files a))%nat) →
   (result.1.1 = 0%nat ↔
    ∀ f, f ∈ Cli.input_files a → is_Some (fs w !! f))).
Proof.
  intros Hin. cbn zeta. unfold Cli.main.
  destruct (loop_nothing_to_convert is_dir a (Cli.input_files a)
              (Cli.mk_progress 0 0 [] w) Hin) as (Hw & _ & He).
  cbn [Cli.now Cli.error_count] in Hw, He.
  destruct (bool_decide (is_Some (Cli.output_file a))
            && (1 <? length (Cli.input_files a))%nat) eqn:Hguard.
  - apply andb_true_iff in Hguard as [Ho Hl].
    apply bool_decide_eq_true in Ho. apply Nat.ltb_lt in Hl.
    cbn [fst snd]. split; [done|]. split; [done|]. tauto.
  - cbn zeta. cbn [fst snd]. split; [done|]. split.
    + intros [Ho Hl]. exfalso.
      apply andb_false_iff in Hguard as [Hg|Hg].
      * by apply bool_decide_eq_false in Hg.
      * apply Nat.ltb_ge in Hg. lia.
    + intros _.
      destruct (Cli.error_count _) eqn:E; [|split; [done|]].
      * split; [intros _; by apply He|done].
      * intros Hall. exfalso.
        assert (S n = 0%nat) as Hn by (by apply (proj2 He)).
        discriminate Hn.
Qed.

Lemma X11_nothing_to_convert_witness :
  let collab := sample_collaborators sample_doc in
  let a := Cli.mk_args ["missing"; "absent"] "json" None false false in
  let result := Cli.main (λ _, false) a sample_world in
  result.2 = sample_world ∧ result.1.1 = 1%nat.
Proof.
  cbn zeta.
  destruct (X11_nothing_to_convert (collab := sample_collaborators sample_doc)
              (λ _, false)
              (Cli.mk_args ["missing"; "absent"] "json" None false false)
              sample_world) as (Hw & _ & _).
  { intros f Hf. left.
    apply elem_of_cons in Hf as [->|Hf]; [reflexivity|].
    apply list_elem_of_singleton in Hf as ->. reflexivity. }
  split; [exact Hw|vm_compute; reflexivity].
Defined.

(** ** One input file, from the command line to the output *)

Section single_file.
Context {collab : Collaborators} (is_dir : string → bool).

(** [main] on a single input that exists and is not a directory. *)
Lemma main_single a f w :
  Cli.input_files a = [f] → is_Some (fs w !! f) → is_dir f = false →
  Cli.main is_dir a w =
    let p := Cli.step is_dir a (Cli.mk_progress 0 0 [] w) f in
    (if (Cli.error_count p =? 0)%nat then 0%nat else 1%nat,
     Cli.console p, Cli.now p).
Proof.
  intros Hf Hex Hd. unfold Cli.main. rewrite Hf.
  cbn [length Nat.ltb Nat.leb]. rewrite andb_false_r.
  cbn [Cli.loop foldl]. cbn zeta. by rewrite app_nil_r.
Qed.

Lemma step_convert a f w :
  is_Some (fs w !! f) → is_dir f = false →
  Cli.step is_dir a (Cli.mk_progress 0 0 [] w) f =
    let shown := Cli.info a ["Processing " +:+ f +:+ "..."] in
    match Cli.convert a f w with
    | (inr output_path, w') =>
        let positions_file := with_suffix output_path ".positions.csv" in
        Cli.mk_progress 1 0
          (shown ++
           Cli.info a (("  ✓ Created: " +:+ output_path) ::
                       if decide (Cli.format a = "csv")
                       then if exists_ w' positions_file
                            then ["  ✓ Created: " +:+ positions_file]
                            else []
                       else []))
          w'
    | (inl e, w') =>
        Cli.mk_progress 0 1 (shown ++ [(Cli.Stderr, Cli.error_line f e)]) w'
    end.
Proof.
  intros Hex Hd. unfold Cli.step. cbn [Cli.now Cli.console].
  unfold exists_. rewrite bool_decide_eq_true_2 by done.
  cbn [negb]. rewrite Hd. reflexivity.
Qed.

Lemma convert_loads a f w :
  is_Some (fs w !! f) →
  Cli.convert a f w =
    let m :=
      if decide (Cli.format a = "json")
      then QFXConverter.to_json (Cli.output_file a)
             (if Cli.compact a then 0 else 2)
      else QFXConverter.to_csv (Cli.output_file a) in
    ((m (fresh f, w)).1, (m (fresh f, w)).2.2).
Proof.
  intros Hex. unfold Cli.convert, QFXConverter.__init__, exists_.
  rewrite bool_decide_eq_true_2 by done. cbn zeta. fold (fresh f).
  by destruct (_ (fresh f, w)) as [r [c' w']].
Qed.
End single_file.

(** X12: [main] with [--json] on a single file that parses to a document
    with transactions, when the output path (given, or the input path with
    the suffix [.json]) can be opened for writing, exits with code 0 and
    writes the dumped object to the output path, with no indentation when
    [--compact] is set and an indentation of 2 otherwise; every other path
    is left as it was. *)
Theorem X12_cli_json_indent {collab : Collaborators}
    (is_dir : string → bool) (a : Cli.args) (f : string) (content : file)
    (doc : document) (w : world) :
  Cli.input_files a = [f] →
  Cli.format a = "json" →
  fs w !! f = Some content →
  is_dir f = false →
  ofx_parse content = inr doc →
  extract_transactions doc ≠ [] →
  data_encodable (json_data doc) = true →
  write_failure (target (fresh f) (Cli.output_file a) ".json") = None →
  let result := Cli.main is_dir a w in
  let path := target (fresh f) (Cli.output_file a) ".json" in
  result.1.1 = 0%nat ∧
  fs result.2 !! path
    = Some (FJson (json_data doc)
              (if Cli.compact a then None else Some 2%Z)) ∧
  (∀ other, other ≠ path → fs result.2 !! other = fs w !! other).
Proof.
  intros Hf Hfmt Hc Hd Hp Hne Henc Hopen. cbn zeta.
  assert (is_Some (fs w !! f)) as Hex by eauto.
  assert (loads (fresh f) w doc) as Hl by (right; split; [done|eauto]).
  rewrite (main_single is_dir a f w Hf Hex Hd). cbn zeta.
  rewrite (step_convert is_dir a f w Hex Hd). cbn zeta.
  rewrite (convert_loads a f w Hex). cbn zeta.
  rewrite decide_True by done.
  rewrite (to_json_spec (fresh f) w doc _ _ Hl).
  destruct (extract_transactions doc) as [|trx rest]; [done|].
  cbn zeta. rewrite Hopen, Henc. cbn [fst snd Cli.error_count Cli.now].
  split; [done|]. cbn [written fs]. split.
  - rewrite lookup_insert_eq. by destruct (Cli.compact a).
  - intros other Ho. rewrite lookup_insert_ne by done. by rewrite loaded_fs.
Qed.

Lemma X12_cli_json_indent_witness :
  let collab := sample_collaborators sample_doc in
  let a := Cli.mk_args ["statement"] "json" None true false in
  let result := Cli.main (λ _, false) a sample_world in
  result.1.1 = 0%nat ∧
  fs result.2 !! "statement.json" = Some (FJson (json_data sample_doc) None).
Proof.
  cbn zeta.
  destruct (X12_cli_json_indent (collab := sample_collaborators sample_doc)
              (λ _, false)
              (Cli.mk_args ["statement"] "json" None true false)
              "statement" (FBytes "OFXHEADER:100") sample_doc sample_world)
    as (Hcode & Hfile & _);
    [reflexivity|reflexivity|reflexivity|reflexivity|reflexivity
    |intros H; apply (f_equal length) in H;
     rewrite extract_transactions_length in H; discriminate H
    |vm_compute; reflexivity|reflexivity|].
  split; [exact Hcode|exact Hfile].
Defined.

(** X13: [main] on a single file that parses to a document without any
    transaction exits with code 1, reports on standard error that no
    transactions were found in that file, and writes nothing, whatever the
    format. *)
Theorem X13_cli_no_transactions {collab : Collaborators}
    (is_dir : string → bool) (a : Cli.args) (f : string) (content : file)
    (doc : document) (w : world) :
  Cli.input_files a = [f] →
  fs w !! f = Some content →
  is_dir f = false →
  ofx_parse content = inr doc →
  extract_transactions doc = [] →
  let result := Cli.main is_dir a w in
  result.1.1 = 1%nat ∧
  fs result.2 = fs w ∧
  result.1.2 =
    Cli.info a ["Processing " +:+ f +:+ "..."] ++
    [(Cli.Stderr,
      "Error processing " +:+ f +:+ ": No transactions found in OFX file")].
Proof.
  intros Hf Hc Hd Hp Hnone. cbn zeta.
  assert (is_Some (fs w !! f)) as Hex by eauto.
  assert (loads (fresh f) w doc) as Hl by (right; split; [done|eauto]).
  rewrite (main_single is_dir a f w Hf Hex Hd). cbn zeta.
  rewrite (step_convert is_dir a f w Hex Hd). cbn zeta.
  rewrite (convert_loads a f w Hex). cbn zeta.
  destruct (decide (Cli.format a = "json")).
  - rewrite (to_json_spec (fresh f) w doc _ _ Hl), Hnone.
    cbn [fst snd Cli.error_count Cli.now Cli.console].
    split; [done|]. split; [apply loaded_fs|done].
  - rewrite (to_csv_spec (fresh f) w doc _ Hl), Hnone.
    cbn [fst snd Cli.error_count Cli.now Cli.console].
    split; [done|]. split; [apply loaded_fs|done].
Qed.

Lemma X13_cli_no_transactions_witness :
  let collab := sample_collaborators empty_doc in
  let a := Cli.mk_args ["statement"] "csv" None false true in
  let result := Cli.main (λ _, false) a sample_world in
  result.1.1 = 1%nat ∧
  fs result.2 = fs sample_world ∧
  result.1.2 =
    [(Cli.Stderr,
      "Error processing statement: No transactions found in OFX file")].
Proof.
  cbn zeta.
  apply (X13_cli_no_transactions (collab := sample_collaborators empty_doc)
           (λ _, false)
           (Cli.mk_args ["statement"] "csv" None false true)
           "statement" (FBytes "OFXHEADER:100") empty_doc sample_world);
    reflexivity.
Defined.
